(** * Verification of the step executables of machship/test-step

    Shallow embedding of [main.go] (the Greeter) and of
    [test-get-request/main.go] (the Forwarder), together with the parts of
    Go's [encoding/json] that the Forwarder relies on: [json.Marshal] for the
    request payload, and [json.NewDecoder(..).Decode] for the proxy response.
    The mocks of [test-get-request/main_test.go] ([MockHTTPClient.Post],
    [MockResponse]) are embedded too, as clients and responses for [Run].

    Go strings and byte slices are modelled as [string] (sequences of 8-bit
    [ascii] characters, i.e. bytes).  Go maps are association lists whose keys
    are pairwise distinct; the value stored in an [interface{}] is [gval]. *)

From Stdlib Require Import String Ascii List Bool Arith NArith Lia Permutation Sorting.Sorted OrdersEx.
Import ListNotations.
Open Scope string_scope.
Open Scope N_scope.
Set Warnings "-register-all".

(* ------------------------------------------------------------------ *)
(** ** Bytes and UTF-8 ([unicode/utf8]) *)

Definition code (c : ascii) : N := N_of_ascii c.
Definition chr (n : N) : ascii := ascii_of_N n.

Definition in_range (lo hi : N) (c : ascii) : bool :=
  (lo <=? code c) && (code c <=? hi).

Definition is_cont (c : ascii) : bool := in_range 0x80 0xBF c.

(** [utf8.DecodeRuneInString]: [Some (r, size)] for a valid encoding at the
    head of [s]; [None] stands for the [(RuneError, 1)] answer on an invalid
    or truncated sequence. *)
Definition DecodeRune (s : string) : option (N * nat) :=
  match s with
  | EmptyString => None
  | String c0 s1 =>
    let b0 := code c0 in
    if b0 <? 0x80 then Some (b0, 1%nat)
    else if (0xC2 <=? b0) && (b0 <=? 0xDF) then
      match s1 with
      | String c1 _ =>
        if is_cont c1 then Some ((b0 - 0xC0) * 64 + (code c1 - 0x80), 2%nat)
        else None
      | EmptyString => None
      end
    else if (0xE0 <=? b0) && (b0 <=? 0xEF) then
      let lo := if b0 =? 0xE0 then 0xA0 else 0x80 in
      let hi := if b0 =? 0xED then 0x9F else 0xBF in
      match s1 with
      | String c1 (String c2 _) =>
        if in_range lo hi c1 && is_cont c2 then
          Some ((b0 - 0xE0) * 4096 + (code c1 - 0x80) * 64 + (code c2 - 0x80), 3%nat)
        else None
      | _ => None
      end
    else if (0xF0 <=? b0) && (b0 <=? 0xF4) then
      let lo := if b0 =? 0xF0 then 0x90 else 0x80 in
      let hi := if b0 =? 0xF4 then 0x8F else 0xBF in
      match s1 with
      | String c1 (String c2 (String c3 _)) =>
        if in_range lo hi c1 && is_cont c2 && is_cont c3 then
          Some ((b0 - 0xF0) * 262144 + (code c1 - 0x80) * 4096
                + (code c2 - 0x80) * 64 + (code c3 - 0x80), 4%nat)
        else None
      | _ => None
      end
    else None
  end.

Fixpoint str_take (n : nat) (s : string) : string :=
  match n, s with
  | O, _ | _, EmptyString => EmptyString
  | S n', String c s' => String c (str_take n' s')
  end.

Fixpoint str_drop (n : nat) (s : string) : string :=
  match n, s with
  | O, _ | _, EmptyString => s
  | S n', String _ s' => str_drop n' s'
  end.

(** The UTF-8 encoding of U+FFFD, [utf8.RuneError]. *)
Definition rune_error_bytes : string :=
  String (chr 0xEF) (String (chr 0xBF) (String (chr 0xBD) EmptyString)).

(** [utf8.AppendRune]. *)
Definition EncodeRune (r : N) : string :=
  if r <? 0x80 then String (chr r) EmptyString
  else if r <? 0x800 then
    String (chr (0xC0 + r / 64)) (String (chr (0x80 + r mod 64)) EmptyString)
  else if (0xD800 <=? r) && (r <=? 0xDFFF) then rune_error_bytes
  else if r <? 0x10000 then
    String (chr (0xE0 + r / 4096))
      (String (chr (0x80 + (r / 64) mod 64))
        (String (chr (0x80 + r mod 64)) EmptyString))
  else if r <=? 0x10FFFF then
    String (chr (0xF0 + r / 262144))
      (String (chr (0x80 + (r / 4096) mod 64))
        (String (chr (0x80 + (r / 64) mod 64))
          (String (chr (0x80 + r mod 64)) EmptyString)))
  else rune_error_bytes.

(** A byte string that is valid UTF-8 all along. *)
Fixpoint utf8_valid_fuel (fuel : nat) (s : string) : bool :=
  match fuel with
  | O => false
  | S f =>
    match s with
    | EmptyString => true
    | String _ _ =>
      match DecodeRune s with
      | Some (_, n) => utf8_valid_fuel f (str_drop n s)
      | None => false
      end
    end
  end.

Definition utf8_valid (s : string) : bool := utf8_valid_fuel (S (String.length s)) s.

(* ------------------------------------------------------------------ *)
(** ** Values held in an [interface{}] after JSON decoding *)

(** Numbers keep the digits of their JSON literal (Go turns them into a
    [float64]; none of the properties below depends on that conversion). *)
Inductive gval : Type :=
| GNull
| GBool (b : bool)
| GNum (lit : string)
| GStr (s : string)
| GArr (l : list gval)
| GObj (m : list (string * gval)).

(** A Go map as an association list; [map_get] is [m[k]] with the
    comma-ok result, [map_set] is [m[k] = v]. *)
Fixpoint map_get {V} (m : list (string * V)) (k : string) : option V :=
  match m with
  | [] => None
  | (k', v) :: m' => if String.eqb k k' then Some v else map_get m' k
  end.

Fixpoint map_set {V} (m : list (string * V)) (k : string) (v : V)
  : list (string * V) :=
  match m with
  | [] => [(k, v)]
  | (k', v') :: m' =>
    if String.eqb k k' then (k, v) :: m' else (k', v') :: map_set m' k v
  end.

(** [m[k]] for a [map[string]interface{}]: the nil interface when absent;
    a nil map ([None]) reads as empty. *)
Definition index (m : option (list (string * gval))) (k : string) : gval :=
  match m with
  | None => GNull
  | Some m' => match map_get m' k with Some v => v | None => GNull end
  end.

Definition str1 (c : ascii) : string := String c EmptyString.

(* ------------------------------------------------------------------ *)
(** ** [json.Marshal] ([encoding/json/encode.go]) *)

(** [hex = "0123456789abcdef"]. *)
Definition hexdigit (n : N) : ascii :=
  chr (if n <? 10 then 48 + n else 87 + n).

(** [htmlSafeSet[b]]: printable ASCII other than the double quote, the
    backslash, [<], [>] and [&]. *)
Definition htmlSafe (b : N) : bool :=
  (0x20 <=? b) && (b <? 0x80) && negb (b =? 34) && negb (b =? 92)
  && negb (b =? 60) && negb (b =? 62) && negb (b =? 38).

(** The bytes [appendString] writes for one ASCII byte of the source. *)
Definition escape_ascii (c : ascii) : string :=
  let b := code c in
  if htmlSafe b then str1 c
  else if (b =? 92) || (b =? 34) then String "\" (str1 c)
  else if b =? 8 then String "\" (str1 "b")
  else if b =? 12 then String "\" (str1 "f")
  else if b =? 10 then String "\" (str1 "n")
  else if b =? 13 then String "\" (str1 "r")
  else if b =? 9 then String "\" (str1 "t")
  else String "\" (String "u" (String "0" (String "0"
         (String (hexdigit (b / 16)) (str1 (hexdigit (b mod 16))))))).

(** The loop of [appendString(dst, src, escapeHTML=true)], one source
    character per iteration; [fuel] is at least the length of [s]. *)
Fixpoint string_body (fuel : nat) (s : string) : string :=
  match fuel with
  | O => EmptyString
  | S f =>
    match s with
    | EmptyString => EmptyString
    | String c s' =>
      if code c <? 0x80 then escape_ascii c ++ string_body f s'
      else
        match DecodeRune s with
        | None => String "\" (String "u" (String "f" (String "f" (String "f"
                    (str1 "d"))))) ++ string_body f s'
        | Some (r, n) =>
          (if (r =? 0x2028) || (r =? 0x2029)
           then String "\" (String "u" (String "2" (String "0" (String "2"
                  (str1 (hexdigit (r mod 16)))))))
           else str_take n s) ++ string_body f (str_drop n s)
        end
    end
  end.

Definition quote_char : ascii := chr 34.

Definition appendString (s : string) : string :=
  str1 quote_char ++ string_body (String.length s) s ++ str1 quote_char.

Fixpoint join_comma (l : list string) : string :=
  match l with
  | [] => EmptyString
  | [x] => x
  | x :: l' => x ++ "," ++ join_comma l'
  end.

(** Map keys are written in increasing byte order ([slices.SortFunc] with
    [strings.Compare] in [mapEncoder.encode]); insertion sort. *)
Fixpoint insert_by_key {V} (k : string) (v : V) (l : list (string * V))
  : list (string * V) :=
  match l with
  | [] => [(k, v)]
  | (k', v') :: l' =>
    if String.ltb k' k then (k', v') :: insert_by_key k v l' else (k, v) :: l
  end.

Fixpoint sort_by_key {V} (l : list (string * V)) : list (string * V) :=
  match l with
  | [] => []
  | (k, v) :: l' => insert_by_key k v (sort_by_key l')
  end.

(** [json.Marshal] on the values the Forwarder marshals ([map[string]any]
    holding strings and a [map[string]string]); a number is written with
    the digits it holds. *)
Fixpoint Marshal (v : gval) : string :=
  match v with
  | GNull => "null"
  | GBool b => if b then "true" else "false"
  | GNum lit => lit
  | GStr s => appendString s
  | GArr l => "[" ++ join_comma (map Marshal l) ++ "]"
  | GObj m =>
    "{" ++ join_comma
             (map (fun kv => appendString (fst kv) ++ ":" ++ snd kv)
                (sort_by_key (map (fun kv => (fst kv, Marshal (snd kv))) m)))
        ++ "}"
  end.

(* ------------------------------------------------------------------ *)
(** ** [json.Decoder.Decode] ([encoding/json/scanner.go], [stream.go],
    [decode.go]) *)

(** Errors of the decoder: [io.EOF], [io.ErrUnexpectedEOF], a
    [*SyntaxError] (the offending byte and the context of the message) and
    an [*UnmarshalTypeError] (the JSON kind found). *)
Inductive json_error : Type :=
| ErrEOF
| ErrUnexpectedEOF
| ErrSyntax (c : ascii) (context : string)
| ErrUnmarshalType (kind : string).

Definition json_error_string (e : json_error) : string :=
  match e with
  | ErrEOF => "EOF"
  | ErrUnexpectedEOF => "unexpected EOF"
  | ErrSyntax c ctx => "invalid character '" ++ str1 c ++ "' " ++ ctx
  | ErrUnmarshalType k =>
    "json: cannot unmarshal " ++ k ++ " into Go value of type map[string]interface {}"
  end.

(** A parse step: an error, or a result and the unread input. *)
Inductive presult (A : Type) : Type :=
| PErr (e : json_error)
| POk (a : A) (rest : string).
Arguments PErr {A} e.
Arguments POk {A} a rest.

Definition prepend (p : string) (r : presult string) : presult string :=
  match r with
  | POk d rest => POk (p ++ d) rest
  | PErr e => PErr e
  end.

(** [isSpace]. *)
Definition is_space (c : ascii) : bool :=
  let b := code c in (b =? 32) || (b =? 9) || (b =? 10) || (b =? 13).

Fixpoint skip_ws (s : string) : string :=
  match s with
  | String c s' => if is_space c then skip_ws s' else s
  | EmptyString => EmptyString
  end.

Fixpoint all_ws (s : string) : bool :=
  match s with
  | String c s' => is_space c && all_ws s'
  | EmptyString => true
  end.

Definition is_digit (c : ascii) : bool := in_range 48 57 c.

Definition hexval (c : ascii) : option N :=
  let b := code c in
  if in_range 48 57 c then Some (b - 48)
  else if in_range 97 102 c then Some (b - 87)
  else if in_range 65 70 c then Some (b - 55)
  else None.

(** The four hexadecimal digits of a [\u] escape, as the scanner checks
    them ([stateInStringEscU1] .. [stateInStringEscU1234]). *)
Fixpoint hexn (n : nat) (acc : N) (s : string) : presult N :=
  match n with
  | O => POk acc s
  | S n' =>
    match s with
    | EmptyString => PErr ErrUnexpectedEOF
    | String c s' =>
      match hexval c with
      | Some d => hexn n' (acc * 16 + d) s'
      | None => PErr (ErrSyntax c "in \u hexadecimal character escape")
      end
    end
  end.

(** [getu4]: the lookahead for the second half of a surrogate pair. *)
Definition getu4 (s : string) : option (N * string) :=
  match s with
  | String b (String u s') =>
    if (code b =? 92) && (code u =? 117) then
      match hexn 4 0 s' with POk r rest => Some (r, rest) | PErr _ => None end
    else None
  | _ => None
  end.

(** [utf16.IsSurrogate] and [utf16.DecodeRune] ([None] for the
    replacement character). *)
Definition IsSurrogate (r : N) : bool := (0xD800 <=? r) && (r <? 0xE000).

Definition DecodeSurrogates (r1 r2 : N) : option N :=
  if (0xD800 <=? r1) && (r1 <? 0xDC00) && (0xDC00 <=? r2) && (r2 <? 0xE000)
  then Some ((r1 - 0xD800) * 1024 + (r2 - 0xDC00) + 0x10000)
  else None.

(** One-character escapes of [unquoteBytes]. *)
Definition simple_escape (e : ascii) : option ascii :=
  let b := code e in
  if (b =? 34) || (b =? 92) || (b =? 47) then Some e
  else if b =? 98 then Some (chr 8)
  else if b =? 102 then Some (chr 12)
  else if b =? 110 then Some (chr 10)
  else if b =? 114 then Some (chr 13)
  else if b =? 116 then Some (chr 9)
  else None.

(** A string literal, from just after its opening quote: the scanner's
    string states together with [unquoteBytes], which decodes escapes and
    replaces invalid UTF-8 with U+FFFD.  Returns the decoded bytes and the
    input after the closing quote. *)
Fixpoint lit_string (fuel : nat) (s : string) : presult string :=
  match fuel with
  | O => PErr ErrUnexpectedEOF
  | S f =>
    match s with
    | EmptyString => PErr ErrUnexpectedEOF
    | String c s1 =>
      let b := code c in
      if b =? 34 then POk EmptyString s1
      else if b =? 92 then
        match s1 with
        | EmptyString => PErr ErrUnexpectedEOF
        | String e s2 =>
          match simple_escape e with
          | Some d => prepend (str1 d) (lit_string f s2)
          | None =>
            if code e =? 117 then
              match hexn 4 0 s2 with
              | PErr err => PErr err
              | POk rr s3 =>
                if IsSurrogate rr then
                  match getu4 s3 with
                  | Some (rr1, s4) =>
                    match DecodeSurrogates rr rr1 with
                    | Some r => prepend (EncodeRune r) (lit_string f s4)
                    | None => prepend rune_error_bytes (lit_string f s3)
                    end
                  | None => prepend rune_error_bytes (lit_string f s3)
                  end
                else prepend (EncodeRune rr) (lit_string f s3)
              end
            else PErr (ErrSyntax e "in string escape code")
          end
        end
      else if b <? 0x20 then PErr (ErrSyntax c "in string literal")
      else if b <? 0x80 then prepend (str1 c) (lit_string f s1)
      else
        match DecodeRune s with
        | None => prepend rune_error_bytes (lit_string f s1)
        | Some (_, n) => prepend (str_take n s) (lit_string f (str_drop n s))
        end
    end
  end.

Fixpoint span_digits (s : string) : string * string :=
  match s with
  | String c s' =>
    if is_digit c then let (ds, r) := span_digits s' in (String c ds, r)
    else (EmptyString, s)
  | EmptyString => (EmptyString, EmptyString)
  end.

(** Exponent part of a number ([stateE], [stateESign], [stateE0]). *)
Definition number_exp (lit : string) (s : string) : presult string :=
  match s with
  | String e r =>
    if (code e =? 101) || (code e =? 69) then
      let (sign, r1) :=
        match r with
        | String c r' =>
          if (code c =? 43) || (code c =? 45) then (str1 c, r') else (EmptyString, r)
        | EmptyString => (EmptyString, r)
        end in
      match r1 with
      | EmptyString => PErr ErrUnexpectedEOF
      | String d r2 =>
        if is_digit d then
          let (ds, r3) := span_digits r2 in POk (lit ++ String e sign ++ String d ds) r3
        else PErr (ErrSyntax d "in exponent of numeric literal")
      end
    else POk lit s
  | EmptyString => POk lit s
  end.

(** Fraction part ([stateDot], [stateDot0]) then the exponent. *)
Definition number_frac (lit : string) (s : string) : presult string :=
  match s with
  | String p r =>
    if code p =? 46 then
      match r with
      | EmptyString => PErr ErrUnexpectedEOF
      | String d r2 =>
        if is_digit d then
          let (ds, r3) := span_digits r2 in number_exp (lit ++ "." ++ String d ds) r3
        else PErr (ErrSyntax d "after decimal point in numeric literal")
      end
    else number_exp lit s
  | EmptyString => POk lit s
  end.

(** A number literal from its first byte ([stateNeg], [state0], [state1]). *)
Definition lit_number (s : string) : presult string :=
  let (neg, s1) :=
    match s with
    | String c r => if code c =? 45 then (str1 c, r) else (EmptyString, s)
    | EmptyString => (EmptyString, s)
    end in
  match s1 with
  | EmptyString => PErr ErrUnexpectedEOF
  | String c r =>
    if code c =? 48 then number_frac (neg ++ str1 c) r
    else if in_range 49 57 c then
      let (ds, r') := span_digits r in number_frac (neg ++ String c ds) r'
    else PErr (ErrSyntax c "in numeric literal")
  end.

(** [true], [false], [null] after their first byte ([stateT], [stateTr], ...). *)
Fixpoint lit_word (word : string) (v : gval) (s : string) : presult gval :=
  match word with
  | EmptyString => POk v s
  | String w word' =>
    match s with
    | EmptyString => PErr ErrUnexpectedEOF
    | String c s' =>
      if Ascii.eqb c w then lit_word word' v s'
      else PErr (ErrSyntax c "in literal (expecting a letter of the literal)")
    end
  end.

(** One JSON value ([stateBeginValue] and the states it leads to), decoded
    as an [interface{}] value; objects are filled key by key with
    [m[k] = v], so a repeated key keeps its last value.  Every recursive
    call reads a strict suffix of [s], so [fuel = length s + 1] is never
    exhausted. *)
Fixpoint parse_value (fuel : nat) (s : string) {struct fuel} : presult gval :=
  match fuel with
  | O => PErr ErrUnexpectedEOF
  | S f =>
    match skip_ws s with
    | EmptyString => PErr ErrUnexpectedEOF
    | String c s1 =>
      let b := code c in
      if b =? 123 then
        match skip_ws s1 with
        | EmptyString => PErr ErrUnexpectedEOF
        | String c2 s2 =>
          if code c2 =? 125 then POk (GObj []) s2
          else if code c2 =? 34 then parse_members f [] s2
          else PErr (ErrSyntax c2 "looking for beginning of object key string")
        end
      else if b =? 91 then
        match skip_ws s1 with
        | EmptyString => PErr ErrUnexpectedEOF
        | String c2 s2 =>
          if code c2 =? 93 then POk (GArr []) s2
          else
            match parse_value f (String c2 s2) with
            | PErr e => PErr e
            | POk v r => parse_elems f [v] r
            end
        end
      else if b =? 34 then
        match lit_string (S (String.length s1)) s1 with
        | POk str r => POk (GStr str) r
        | PErr e => PErr e
        end
      else if (b =? 45) || is_digit c then
        match lit_number (String c s1) with
        | POk lit r => POk (GNum lit) r
        | PErr e => PErr e
        end
      else if b =? 116 then lit_word "rue" (GBool true) s1
      else if b =? 102 then lit_word "alse" (GBool false) s1
      else if b =? 110 then lit_word "ull" GNull s1
      else PErr (ErrSyntax c "looking for beginning of value")
    end
  end
(** Object members, from just after the opening quote of a key. *)
with parse_members (fuel : nat) (acc : list (string * gval)) (s : string)
  {struct fuel} : presult gval :=
  match fuel with
  | O => PErr ErrUnexpectedEOF
  | S f =>
    match lit_string (S (String.length s)) s with
    | PErr e => PErr e
    | POk k r1 =>
      match skip_ws r1 with
      | EmptyString => PErr ErrUnexpectedEOF
      | String c r2 =>
        if code c =? 58 then
          match parse_value f r2 with
          | PErr e => PErr e
          | POk v r3 =>
            let acc' := map_set acc k v in
            match skip_ws r3 with
            | EmptyString => PErr ErrUnexpectedEOF
            | String d r4 =>
              if code d =? 44 then
                match skip_ws r4 with
                | EmptyString => PErr ErrUnexpectedEOF
                | String q r5 =>
                  if code q =? 34 then parse_members f acc' r5
                  else PErr (ErrSyntax q "looking for beginning of object key string")
                end
              else if code d =? 125 then POk (GObj acc') r4
              else PErr (ErrSyntax d "after object key:value pair")
            end
          end
        else PErr (ErrSyntax c "after object key")
      end
    end
  end
(** Array elements after the first one. *)
with parse_elems (fuel : nat) (acc : list gval) (s : string)
  {struct fuel} : presult gval :=
  match fuel with
  | O => PErr ErrUnexpectedEOF
  | S f =>
    match skip_ws s with
    | EmptyString => PErr ErrUnexpectedEOF
    | String d r =>
      if code d =? 44 then
        match parse_value f r with
        | PErr e => PErr e
        | POk v r' => parse_elems f (acc ++ [v]) r'
        end
      else if code d =? 93 then POk (GArr acc) r
      else PErr (ErrSyntax d "after array element")
    end
  end.

(** [Decoder.readValue] followed by the decoding of that value: only the
    first JSON value of the stream is read; bytes after it are left
    unread.  A stream of white space only gives [io.EOF]. *)
Definition read_value (body : string) : presult gval :=
  match skip_ws body with
  | EmptyString => PErr ErrEOF
  | _ => parse_value (S (String.length body)) body
  end.

Definition kind_of (v : gval) : string :=
  match v with
  | GNull => "null"
  | GBool _ => "bool"
  | GNum _ => "number"
  | GStr _ => "string"
  | GArr _ => "array"
  | GObj _ => "object"
  end.

(** A [map[string]interface{}] variable: [None] is the nil map. *)
Definition gomap := option (list (string * gval)).

(** [var result map[string]interface{}; err := json.NewDecoder(body).Decode(&result)]:
    an object fills a new map, [null] leaves the nil map, any other value
    is an [*UnmarshalTypeError]. *)
Definition DecodeMap (body : string) : gomap * option json_error :=
  match read_value body with
  | PErr e => (None, Some e)
  | POk (GObj m) _ => (Some m, None)
  | POk GNull _ => (None, None)
  | POk v _ => (None, Some (ErrUnmarshalType (kind_of v)))
  end.

(** [json.Valid]: the whole input is one JSON value and white space. *)
Definition Valid (data : string) : bool :=
  match read_value data with
  | POk _ rest => all_ws rest
  | PErr _ => false
  end.

(** [json.Unmarshal(data, &m)] into a [map[string]interface{}]: the input is
    checked whole before it is decoded. *)
Definition UnmarshalMap (data : string) : gomap * option json_error :=
  match read_value data with
  | PErr ErrEOF => (None, Some ErrUnexpectedEOF)
  | PErr e => (None, Some e)
  | POk _ rest =>
    match skip_ws rest with
    | String c _ => (None, Some (ErrSyntax c "after top-level value"))
    | EmptyString => DecodeMap data
    end
  end.

(* ------------------------------------------------------------------ *)
(** ** Observable effects *)

(** What a run does to the outside world: a [Post] call on the HTTP
    client, the [Close] of a response body, the [SetOutputs] of the step
    I/O library, and writes to the process's standard output and standard
    error streams. *)
Inductive event : Type :=
| EvPost (url contentType body : string)
| EvClose
| EvSetOutputs (outputs : list (string * gval))
| EvStdout (text : string)
| EvStderr (text : string).

(** A writer monad over the event log. *)
Definition M (A : Type) : Type := list event -> A * list event.

Definition ret {A} (a : A) : M A := fun l => (a, l).
Definition bind {A B} (m : M A) (k : A -> M B) : M B :=
  fun l => let (a, l') := m l in k a l'.
Definition emit (e : event) : M unit := fun l => (tt, (l ++ [e])%list).

Notation "x <- m ;; k" := (bind m (fun x => k))
  (at level 61, m at next level, right associativity).
Notation "m ;;; k" := (bind m (fun _ => k))
  (at level 61, right associativity).

(** The events of a computation started on an empty log. *)
Definition events {A} (m : M A) : list event := snd (m []).
Definition value {A} (m : M A) : A := fst (m []).

(* ------------------------------------------------------------------ *)
(** ** The Forwarder: [test-get-request/main.go] *)

(** [*http.Response], as far as the program reads it. *)
Record Response : Type := { StatusCode : N; Body : string }.

(** What [HTTPClient.Post] returns: a response, or an error (its message). *)
Inductive post_result : Type :=
| PostOk (resp : Response)
| PostErr (msg : string).

(** [type HTTPClient interface { Post(url, contentType string, body io.Reader) ... }]. *)
Definition HTTPClient : Type := string -> string -> string -> post_result.

(** [type Config struct]; [Headers] is a Go [map[string]string]. *)
Record Config : Type := {
  ConnectionsURL : string;
  TargetURL : string;
  Headers : list (string * string)
}.

(** [type App struct]. *)
Record App : Type := { client : HTTPClient; config : Config }.

Definition NewApp (c : HTTPClient) (cfg : Config) : App :=
  {| client := c; config := cfg |}.

Definition DefaultConfig : Config := {|
  ConnectionsURL := "http://localhost:8081/api/v1/connections/send";
  TargetURL := "https://httpbin.org/get";
  Headers := [("User-Agent", "Visual-Go-Test/1.0"); ("Accept", "application/json")]
|}.

(** Go's [(value, error)] pair for functions that can fail. *)
Inductive result (A : Type) : Type :=
| Ok (a : A)
| Err (msg : string).
Arguments Ok {A} a.
Arguments Err {A} msg.

(** The payload [map[string]interface{}] before marshalling. *)
Definition payload_value (a : App) : gval :=
  GObj [("method", GStr "GET");
        ("url", GStr (TargetURL (config a)));
        ("headers", GObj (map (fun kv => (fst kv, GStr (snd kv))) (Headers (config a))))].

(** [preparePayload]: [json.Marshal] cannot fail on a map of strings. *)
Definition preparePayload (a : App) : result string :=
  Ok (Marshal (payload_value a)).

(** [sendRequest]: one [Post] call on the client. *)
Definition sendRequest (a : App) (payload : string) : M post_result :=
  emit (EvPost (ConnectionsURL (config a)) "application/json" payload) ;;;
  ret (client a (ConnectionsURL (config a)) "application/json" payload).

(** [parseResponse]: decode, then the deferred [resp.Body.Close()] runs
    before the function returns. *)
Definition parseResponse (resp : Response) : M (gomap * option json_error) :=
  let r := DecodeMap (Body resp) in
  emit EvClose ;;;
  ret r.

(** [setOutputs]. *)
Definition outputs_of (r : gomap) : list (string * gval) :=
  [("status_code", index r "status_code");
   ("response_body", index r "body");
   ("duration", index r "duration")].

Definition setOutputs (r : gomap) : M unit := emit (EvSetOutputs (outputs_of r)).

(** [Run]: the error result is the message of the wrapped error
    ([fmt.Errorf("...: %w", err)]). *)
Definition Run (a : App) : M (option string) :=
  match preparePayload a with
  | Err e => ret (Some ("failed to prepare payload: " ++ e))
  | Ok payload =>
    r <- sendRequest a payload ;;
    match r with
    | PostErr e => ret (Some ("failed to send request: " ++ e))
    | PostOk resp =>
      pr <- parseResponse resp ;;
      match snd pr with
      | Some e => ret (Some ("failed to parse response: " ++ json_error_string e))
      | None => setOutputs (fst pr) ;;; ret None
      end
    end
  end.

(** [main] of the Forwarder, with the real client as a parameter. *)
Definition forwarder_main (c : HTTPClient) : M unit :=
  err <- Run (NewApp c DefaultConfig) ;;
  match err with
  | Some e => emit (EvStdout ("Error: " ++ e ++ str1 (chr 10)))
  | None => ret tt
  end.

(* ------------------------------------------------------------------ *)
(** ** The Greeter: [main.go] *)

(** Modelled from the spec: [getMessage], called by [main.go] but not part
    of its source; the spec gives its output as ["Hello, {name}!"]. *)
Definition getMessage (name : string) : string := "Hello, " ++ name ++ "!".

(** The type assertion [inputs["name"].(string)] with its [ok] flag. *)
Definition assert_string (v : option gval) : string * bool :=
  match v with
  | Some (GStr s) => (s, true)
  | _ => (EmptyString, false)
  end.

(** [main] of the Greeter, on the inputs [io.GetInputs()] returns. *)
Definition greeter_main (inputs : list (string * gval)) : M unit :=
  let (name0, ok) := assert_string (map_get inputs "name") in
  let name := if negb ok || String.eqb name0 EmptyString then "World" else name0 in
  emit (EvSetOutputs [("message", GStr (getMessage name))]).

(* ------------------------------------------------------------------ *)
(** ** Observations used by the statements *)

(** [strings.Contains]. *)
Fixpoint contains (needle hay : string) : bool :=
  String.prefix needle hay ||
  match hay with
  | String _ hay' => contains needle hay'
  | EmptyString => false
  end.

Definition is_set_outputs (e : event) : bool :=
  match e with EvSetOutputs _ => true | _ => false end.

Definition is_post (e : event) : bool :=
  match e with EvPost _ _ _ => true | _ => false end.

Definition is_close (e : event) : bool :=
  match e with EvClose => true | _ => false end.

Definition is_stderr (e : event) : bool :=
  match e with EvStderr _ => true | _ => false end.

(** The request descriptor the proxy should receive, as a decoded map: the
    three keys and nothing else, the headers being the configured map. *)
Definition is_request_descriptor (cfg : Config) (m : list (string * gval)) : Prop :=
  map_get m "method" = Some (GStr "GET") /\
  map_get m "url" = Some (GStr (TargetURL cfg)) /\
  (exists h, map_get m "headers" = Some (GObj h) /\
     forall k, map_get h k = option_map GStr (map_get (Headers cfg) k)) /\
  (forall k, k <> "method" -> k <> "url" -> k <> "headers" -> map_get m k = None).

(* ------------------------------------------------------------------ *)
(** ** The run, step by step *)

Definition post_url (a : App) : string := ConnectionsURL (config a).
Definition payload_of (a : App) : string := Marshal (payload_value a).
Definition post_event (a : App) : event :=
  EvPost (post_url a) "application/json" (payload_of a).

(* ------------------------------------------------------------------ *)
(** ** Test doubles ([MockHTTPClient] of [main_test.go]) *)

(** A client answering every [Post] with status 200 and the given body. *)
Definition mock_client (body : string) : HTTPClient :=
  fun _ _ _ => PostOk {| StatusCode := 200; Body := body |}.

(** A client whose [Post] always fails. *)
Definition failing_client (msg : string) : HTTPClient := fun _ _ _ => PostErr msg.

(** A JSON string literal, to write response bodies. *)
Definition q (s : string) : string := str1 quote_char ++ s ++ str1 quote_char.

Definition proxy_ok_body : string :=
  "{" ++ q "status_code" ++ ":200," ++ q "body" ++ ":" ++ q "ok" ++ ","
      ++ q "duration" ++ ":" ++ q "10ms" ++ "}".

Definition newline : string := str1 (chr 10).

(* ------------------------------------------------------------------ *)
(** ** Round trip of the payload *)

(** [e] is read back by the decoder as the value [v], whatever follows it
    and with any fuel that covers the input. *)
Definition parses_to (e : string) (v : gval) : Prop :=
  forall (f : nat) (rest : string),
    (String.length (e ++ rest) < f)%nat -> parse_value f (e ++ rest) = POk v rest.

(** One [key:value] member of a marshalled object. *)
Definition enc_entry (kv : string * gval) : string :=
  appendString (fst kv) ++ ":" ++ Marshal (snd kv).

(** The members after the first one, each after its comma. *)
Definition entries_tail (L : list (string * gval)) : string :=
  match L with
  | [] => EmptyString
  | _ => "," ++ join_comma (map enc_entry L)
  end.

(** A marshalled member [kv] decodes as the member [kv'], under the same key. *)
Definition entry_ok (kv kv' : string * gval) : Prop :=
  fst kv' = fst kv /\ utf8_valid (fst kv) = true /\ parses_to (Marshal (snd kv)) (snd kv').

(** The map the decoder builds by storing the members of [L] in [acc]. *)
Definition set_all (L : list (string * gval)) (acc : list (string * gval)) :=
  fold_left (fun a kv => map_set a (fst kv) (snd kv)) L acc.

(* ------------------------------------------------------------------ *)
(** ** The mocks of [main_test.go], and predicates on values and bytes *)

(** [MockHTTPClient.Post]: the [PostFunc] field when set, an error otherwise. *)
Definition MockHTTPClient_Post (PostFunc : option HTTPClient) : HTTPClient :=
  fun url contentType body =>
    match PostFunc with
    | Some f => f url contentType body
    | None => PostErr "mock not implemented"
    end.

(** [MockResponse]: the body is [json.Marshal] of the map (its error is
    dropped; it cannot occur on the values used). *)
Definition MockResponse (statusCode : N) (body : list (string * gval)) : Response :=
  {| StatusCode := statusCode; Body := Marshal (GObj body) |}.

(** Distinct keys, as in a Go map. *)
Fixpoint keys_distinct (l : list string) : bool :=
  match l with
  | [] => true
  | k :: l' => negb (existsb (String.eqb k) l') && keys_distinct l'
  end.

(** The values [json.Marshal] writes and the decoder reads back unchanged
    up to key order: null, booleans, valid UTF-8 strings, and arrays and maps
    (distinct valid UTF-8 keys) of such values.  Numbers are left out: Go
    decodes them as [float64]. *)
Fixpoint plain (v : gval) : bool :=
  match v with
  | GNull | GBool _ => true
  | GNum _ => false
  | GStr s => utf8_valid s
  | GArr l => forallb plain l
  | GObj m => keys_distinct (map fst m) &&
              forallb (fun kv => utf8_valid (fst kv) && plain (snd kv)) m
  end.

(** The value the decoder builds for [json.Marshal v]: maps come back with
    their keys in increasing order. *)
Fixpoint norm (v : gval) : gval :=
  match v with
  | GArr l => GArr (map norm l)
  | GObj m => GObj (sort_by_key (map (fun kv => (fst kv, norm (snd kv))) m))
  | _ => v
  end.

(** The elements after the first one of a marshalled array, each after its comma. *)
Definition elems_tail (L : list gval) : string :=
  match L with
  | [] => EmptyString
  | _ => "," ++ join_comma (map Marshal L)
  end.

(** Induction on [gval] through the elements of arrays and the values of maps. *)
Fixpoint gval_ind2 (P : gval -> Prop)
  (hN : P GNull) (hB : forall b, P (GBool b)) (hU : forall l, P (GNum l))
  (hS : forall s, P (GStr s)) (hA : forall l, Forall P l -> P (GArr l))
  (hO : forall m, Forall (fun kv => P (snd kv)) m -> P (GObj m)) (v : gval) : P v :=
  match v with
  | GNull => hN
  | GBool b => hB b
  | GNum l => hU l
  | GStr s => hS s
  | GArr l => hA l ((fix F (l : list gval) : Forall P l :=
                      match l with
                      | [] => Forall_nil P
                      | x :: l' => Forall_cons x (gval_ind2 P hN hB hU hS hA hO x) (F l')
                      end) l)
  | GObj m => hO m ((fix F (m : list (string * gval)) : Forall (fun kv => P (snd kv)) m :=
                      match m with
                      | [] => Forall_nil _
                      | kv :: m' => Forall_cons kv (gval_ind2 P hN hB hU hS hA hO (snd kv)) (F m')
                      end) m)
  end.

(** Strict order of map entries by key. *)
Definition key_lt {V} (x y : string * V) : Prop := String.ltb (fst x) (fst y) = true.

(** Every byte of [s] satisfies [p]. *)
Fixpoint all_bytes (p : ascii -> bool) (s : string) : bool :=
  match s with
  | EmptyString => true
  | String c s' => p c && all_bytes p s'
  end.

(** Not a control byte, and none of [<], [>], [&]. *)
Definition safe_byte (c : ascii) : bool :=
  (0x20 <=? code c) && negb (code c =? 60) && negb (code c =? 62) && negb (code c =? 38).

(** Values without numbers (the digits of a number are written as held). *)
Fixpoint no_num (v : gval) : bool :=
  match v with
  | GNum _ => false
  | GArr l => forallb no_num l
  | GObj m => forallb (fun kv => no_num (snd kv)) m
  | _ => true
  end.

(** Go's scanner ([maxNestingDepth] in [encoding/json/scanner.go]) refuses
    a value whose arrays and objects nest more than 10000 levels deep, with
    the error "exceeded max depth".  [parse_value] has no such limit: the
    statements that need the decoder to succeed assume the limit is kept. *)
Definition maxNestingDepth : N := 10000.

(** Nesting depth of a value: the number of arrays and objects on the
    longest path from the value to a leaf, as the scanner's stack counts it. *)
Fixpoint nesting_depth (v : gval) : N :=
  match v with
  | GArr l => N.succ (fold_right N.max 0 (map nesting_depth l))
  | GObj m => N.succ (fold_right N.max 0 (map (fun kv => nesting_depth (snd kv)) m))
  | _ => 0
  end.

(* ------------------------------------------------------------------ *)
(** * Properties *)

(* ------------------------------------------------------------------ *)
(** ** Marshal, then decode *)

Ltac split_ifs H :=
  repeat match type of H with
  | context [if ?b then _ else _] => let E := fresh "E" in destruct b eqn:E
  end.

Ltac rewrite_ifs :=
  repeat match goal with
  | E : ?b = true |- context [if ?b then _ else _] => rewrite E
  | E : ?b = false |- context [if ?b then _ else _] => rewrite E
  end.

Lemma DecodeRune_take (s : string) (r : N) (n : nat) :
  DecodeRune s = Some (r, n) ->
  (1 <= n <= String.length s)%nat /\
  forall Y, DecodeRune (str_take n s ++ Y) = Some (r, n).
Proof.
  intros H.
  destruct s as [|c0 [|c1 [|c2 [|c3 s4]]]]; [discriminate| | | |];
    unfold DecodeRune in H |- *; cbv zeta in H |- *; split_ifs H;
    try discriminate; injection H as <- <-;
    (split; [cbn [String.length]; lia|]); intros Y; cbn [str_take append];
    rewrite_ifs; reflexivity.
Qed.

Ltac bools_to_N :=
  repeat match goal with
  | E : (_ && _) = true |- _ => apply andb_prop in E; destruct E
  | E : (_ || _) = true |- _ => apply orb_prop in E; destruct E
  | E : (_ <=? _) = true |- _ => apply N.leb_le in E
  | E : (_ <=? _) = false |- _ => apply N.leb_gt in E
  | E : (_ <? _) = true |- _ => apply N.ltb_lt in E
  | E : (_ <? _) = false |- _ => apply N.ltb_ge in E
  | E : (_ =? _) = true |- _ => apply N.eqb_eq in E
  | E : (_ =? _) = false |- _ => apply N.eqb_neq in E
  end.

Lemma code_bound (c : ascii) : code c < 256.
Proof. apply N_ascii_bounded. Qed.

Ltac bound_codes :=
  repeat match goal with
  | c : ascii |- _ =>
    lazymatch goal with
    | _ : code c < 256 |- _ => fail
    | _ => pose proof (code_bound c)
    end
  end.

Lemma chr_code (c : ascii) : chr (code c) = c.
Proof. apply ascii_N_embedding. Qed.

Lemma ascii_of_code (c : ascii) (n : N) : code c = n -> c = chr n.
Proof. intros <-. symmetry. apply chr_code. Qed.

Lemma DecodeRune_line_separator (s : string) (r : N) (n : nat) :
  DecodeRune s = Some (r, n) -> (r =? 0x2028) || (r =? 0x2029) = true ->
  str_take n s = EncodeRune r.
Proof.
  intros H Hr.
  destruct s as [|c0 [|c1 [|c2 [|c3 s4]]]]; [discriminate| | | |];
    unfold DecodeRune, is_cont, in_range in H; cbv zeta in H; split_ifs H;
    try discriminate; injection H as <- <-;
    unfold in_range in *; bools_to_N;
    repeat match goal with
    | h : context [if ?b then _ else _] |- _ => destruct b eqn:?
    end; bools_to_N; bound_codes; try lia.
  all: assert (code c0 = 0xE2 /\ code c1 = 0x80 /\ (code c2 = 0xA8 \/ code c2 = 0xA9))
        as (Hc0 & Hc1 & [Hc2|Hc2]) by lia;
       apply ascii_of_code in Hc0, Hc1, Hc2; subst; vm_compute; reflexivity.
Qed.

Lemma lit_string_escape_ascii (c : ascii) (f : nat) (X : string) :
  (code c <? 0x80) = true ->
  lit_string (S f) (escape_ascii c ++ X) = prepend (str1 c) (lit_string f X).
Proof.
  intros H.
  destruct c as [[] [] [] [] [] [] [] []]; try discriminate H; reflexivity.
Qed.

(** Byte-string helpers. *)

Lemma sappend_assoc (x y z : string) : (x ++ y) ++ z = x ++ (y ++ z).
Proof. induction x as [|c x IH]; simpl; [reflexivity|now rewrite IH]. Qed.

Lemma sappend_nil_r (x : string) : x ++ EmptyString = x.
Proof. induction x as [|c x IH]; simpl; [reflexivity|now rewrite IH]. Qed.

Lemma slength_app (x y : string) :
  String.length (x ++ y) = (String.length x + String.length y)%nat.
Proof. induction x as [|c x IH]; simpl; [reflexivity|now rewrite IH]. Qed.

Lemma str_take_drop (n : nat) (s : string) : str_take n s ++ str_drop n s = s.
Proof.
  revert s; induction n as [|n IH]; intros [|c s]; simpl; try reflexivity.
  now rewrite IH.
Qed.

Lemma slength_take (n : nat) (s : string) :
  (n <= String.length s)%nat -> String.length (str_take n s) = n.
Proof.
  revert s; induction n as [|n IH]; intros [|c s] H; simpl in *; try lia.
  rewrite IH; lia.
Qed.

Lemma slength_drop (n : nat) (s : string) :
  String.length (str_drop n s) = (String.length s - n)%nat.
Proof.
  revert s; induction n as [|n IH]; intros [|c s]; simpl; try lia.
  apply IH.
Qed.

Lemma str_take_app (x y : string) : str_take (String.length x) (x ++ y) = x.
Proof. induction x as [|c x IH]; simpl; [destruct y; reflexivity|now rewrite IH]. Qed.

Lemma str_drop_app (x y : string) : str_drop (String.length x) (x ++ y) = y.
Proof. induction x as [|c x IH]; simpl; [destruct y; reflexivity|exact IH]. Qed.

Lemma str_take_app_len (x y : string) (n : nat) :
  String.length x = n -> str_take n (x ++ y) = x.
Proof. intros <-. apply str_take_app. Qed.

Lemma str_drop_app_len (x y : string) (n : nat) :
  String.length x = n -> str_drop n (x ++ y) = y.
Proof. intros <-. apply str_drop_app. Qed.

(** One step of [lit_string] and of [string_body] on a byte >= 0x80. *)

Lemma lit_string_nonascii (c : ascii) (Z : string) (f : nat) :
  0x80 <= code c ->
  lit_string (S f) (String c Z) =
  match DecodeRune (String c Z) with
  | None => prepend rune_error_bytes (lit_string f Z)
  | Some (_, n) => prepend (str_take n (String c Z)) (lit_string f (str_drop n (String c Z)))
  end.
Proof.
  intros H. cbn [lit_string]. cbv zeta.
  replace (code c =? 34) with false by (symmetry; apply N.eqb_neq; lia).
  replace (code c =? 92) with false by (symmetry; apply N.eqb_neq; lia).
  replace (code c <? 0x20) with false by (symmetry; apply N.ltb_ge; lia).
  replace (code c <? 0x80) with false by (symmetry; apply N.ltb_ge; lia).
  reflexivity.
Qed.

Lemma string_body_nonascii (c : ascii) (Z : string) (g : nat) :
  0x80 <= code c ->
  string_body (S g) (String c Z) =
  match DecodeRune (String c Z) with
  | None => String "\" (String "u" (String "f" (String "f" (String "f"
              (str1 "d"))))) ++ string_body g Z
  | Some (r, n) =>
    (if (r =? 0x2028) || (r =? 0x2029)
     then String "\" (String "u" (String "2" (String "0" (String "2"
            (str1 (hexdigit (r mod 16)))))))
     else str_take n (String c Z)) ++ string_body g (str_drop n (String c Z))
  end.
Proof.
  intros H. cbn [string_body].
  replace (code c <? 0x80) with false by (symmetry; apply N.ltb_ge; lia).
  reflexivity.
Qed.

Lemma lit_string_line_separator (r : N) (f : nat) (Y : string) :
  (r =? 0x2028) || (r =? 0x2029) = true ->
  lit_string (S f)
    (String "\" (String "u" (String "2" (String "0" (String "2"
       (str1 (hexdigit (r mod 16))))))) ++ Y) =
  prepend (EncodeRune r) (lit_string f Y).
Proof.
  intros H. apply orb_prop in H as [H|H]; apply N.eqb_eq in H; subst; reflexivity.
Qed.

Lemma prepend_POk (p s rest : string) : prepend p (POk s rest) = POk (p ++ s) rest.
Proof. reflexivity. Qed.

(** [unquoteBytes] inverts [appendString] on valid UTF-8. *)

(** The string literal written by the encoder reads back as the string,
    when the string is valid UTF-8. *)
Lemma lit_string_string_body (g : nat) : forall (s : string),
  utf8_valid_fuel g s = true ->
  forall (g' f : nat) (rest : string),
  (String.length s <= g')%nat ->
  (String.length (string_body g' s) < f)%nat ->
  lit_string f (string_body g' s ++ str1 quote_char ++ rest) = POk s rest.
Proof.
  induction g as [|g IH]; intros s Hv g' f rest Hg Hf; [discriminate|].
  destruct s as [|c s'].
  - destruct f as [|f]; [cbn in Hf; lia|].
    destruct g'; reflexivity.
  - cbn [utf8_valid_fuel] in Hv.
    destruct (DecodeRune (String c s')) as [[r n]|] eqn:Hd; [|discriminate].
    destruct (DecodeRune_take _ _ _ Hd) as [Hn _].
    destruct g' as [|g']; [cbn in Hg; lia|].
    destruct f as [|f]; [lia|].
    destruct (code c <? 0x80) eqn:Ha.
    + (* one ASCII byte *)
      assert (n = 1%nat) as ->.
      { unfold DecodeRune in Hd. cbv zeta in Hd. rewrite Ha in Hd. congruence. }
      cbn [str_drop] in Hv.
      cbn [string_body] in Hf |- *. rewrite Ha in Hf |- *.
      rewrite sappend_assoc, lit_string_escape_ascii by exact Ha.
      rewrite slength_app in Hf.
      assert (1 <= String.length (escape_ascii c))%nat.
      { unfold escape_ascii. cbv zeta.
        repeat match goal with |- context [if ?b then _ else _] => destruct b end;
          cbn; lia. }
      rewrite (IH s' Hv g' f rest) by (cbn in Hg; lia). reflexivity.
    + apply N.ltb_ge in Ha.
      rewrite string_body_nonascii in Hf |- * by exact Ha. rewrite Hd in Hf |- *.
      assert (Hdrop : (String.length (str_drop n (String c s')) <= g')%nat).
      { rewrite slength_drop. cbn [String.length] in *. lia. }
      rewrite sappend_assoc.
      destruct ((r =? 0x2028) || (r =? 0x2029)) eqn:Hr.
      * rewrite lit_string_line_separator by exact Hr.
        rewrite <- (DecodeRune_line_separator _ _ _ Hd Hr).
        rewrite slength_app in Hf. cbn [String.length str1] in Hf.
        rewrite (IH _ Hv g' f rest Hdrop) by lia.
        rewrite prepend_POk, str_take_drop. reflexivity.
      * destruct n as [|n']; [lia|].
        change (str_take (S n') (String c s') ++ ?Y) with (String c (str_take n' s' ++ Y)).
        rewrite lit_string_nonascii by exact Ha.
        change (String c (str_take n' s' ++ ?Y)) with (str_take (S n') (String c s') ++ Y).
        rewrite (proj2 (DecodeRune_take _ _ _ Hd)).
        pose proof (slength_take (S n') (String c s') (proj2 Hn)) as Hlt.
        rewrite (str_take_app_len _ _ _ Hlt), (str_drop_app_len _ _ _ Hlt).
        rewrite slength_app, Hlt in Hf.
        rewrite (IH _ Hv g' f rest Hdrop) by lia.
        rewrite prepend_POk, str_take_drop. reflexivity.
Qed.

Lemma appendString_split (s : string) :
  appendString s = String quote_char (string_body (String.length s) s ++ str1 quote_char).
Proof. reflexivity. Qed.

Lemma parse_value_quote (f : nat) (X : string) :
  parse_value (S f) (String quote_char X) =
  match lit_string (S (String.length X)) X with
  | POk str r => POk (GStr str) r
  | PErr e => PErr e
  end.
Proof. reflexivity. Qed.

Lemma string_body_length (s : string) :
  (String.length (string_body (String.length s) s) < S (String.length (string_body (String.length s) s ++ str1 quote_char)))%nat.
Proof. rewrite slength_app. cbn [String.length str1]. lia. Qed.

Lemma Marshal_GStr_parses (s : string) :
  utf8_valid s = true -> parses_to (Marshal (GStr s)) (GStr s).
Proof.
  intros Hv f rest Hf.
  destruct f as [|f]; [lia|].
  cbn [Marshal]. rewrite appendString_split. cbn [append].
  rewrite parse_value_quote, sappend_assoc.
  rewrite (lit_string_string_body _ s Hv); [reflexivity|lia|].
  rewrite !slength_app. lia.
Qed.

Lemma parse_members_step (f : nat) (acc : list (string * gval)) (k X : string) :
  utf8_valid k = true ->
  parse_members (S f) acc (string_body (String.length k) k ++ str1 quote_char ++ String ":" X) =
  match parse_value f X with
  | PErr e => PErr e
  | POk v r3 =>
    let acc' := map_set acc k v in
    match skip_ws r3 with
    | EmptyString => PErr ErrUnexpectedEOF
    | String d r4 =>
      if code d =? 44 then
        match skip_ws r4 with
        | EmptyString => PErr ErrUnexpectedEOF
        | String q r5 =>
          if code q =? 34 then parse_members f acc' r5
          else PErr (ErrSyntax q "looking for beginning of object key string")
        end
      else if code d =? 125 then POk (GObj acc') r4
      else PErr (ErrSyntax d "after object key:value pair")
    end
  end.
Proof.
  intros Hv. cbn [parse_members].
  rewrite (lit_string_string_body _ k Hv); [reflexivity|lia|].
  rewrite !slength_app. lia.
Qed.

Lemma join_comma_cons (kv : string * gval) (L : list (string * gval)) :
  join_comma (map enc_entry (kv :: L)) = enc_entry kv ++ entries_tail L.
Proof. destruct L; cbn [map join_comma entries_tail]; [now rewrite sappend_nil_r|reflexivity]. Qed.

(** The members of a marshalled object, read from just after the opening
    quote of the first key. *)
Lemma parse_members_entries (L : list (string * gval)) :
  forall L' k v v' acc f rest,
  Forall2 entry_ok ((k, v) :: L) ((k, v') :: L') ->
  (String.length (string_body (String.length k) k ++ str1 quote_char ++
     String ":" (Marshal v ++ entries_tail L ++ "}" ++ rest)) < f)%nat ->
  parse_members f acc (string_body (String.length k) k ++ str1 quote_char ++
     String ":" (Marshal v ++ entries_tail L ++ "}" ++ rest))
  = POk (GObj (set_all ((k, v') :: L') acc)) rest.
Proof.
  induction L as [|[k2 v2] L IH]; intros L' k v v' acc f rest Hok Hf;
    inversion Hok as [|? ? ? ? [_ [Hk Hv]] Hok']; subst; cbn [fst snd] in Hk, Hv;
    (destruct f as [|f]; [lia|]);
    rewrite parse_members_step by exact Hk;
    (rewrite Hv; [|rewrite !slength_app in *; cbn [String.length str1] in *;
                   rewrite !slength_app in *; lia]).
  - inversion Hok'. reflexivity.
  - inversion Hok' as [|? [k2' v2'] ? L'' [Hk2e [Hk2 _]] _]; subst.
    cbn [fst] in Hk2e. subst k2'.
    cbn [entries_tail] in Hf |- *. rewrite join_comma_cons in Hf |- *.
    unfold enc_entry at 1. unfold enc_entry in Hf. cbn [fst snd] in Hf |- *.
    rewrite appendString_split in Hf |- *.
    rewrite !sappend_assoc. cbn [append skip_ws].
    replace (is_space ",") with false by reflexivity.
    replace (is_space quote_char) with false by reflexivity.
    replace (code "," =? 44) with true by reflexivity.
    replace (code quote_char =? 34) with true by reflexivity.
    cbv iota beta zeta.
    replace (skip_ws (String quote_char _)) with (String quote_char
      ((string_body (String.length k2) k2 ++ str1 quote_char) ++
         String ":" (Marshal v2 ++ entries_tail L ++ String "}" rest))) by reflexivity.
    replace (code quote_char =? 34) with true by reflexivity.
    cbv iota beta zeta. rewrite sappend_assoc.
    change (String "}" rest) with ("}" ++ rest).
    rewrite (IH L'' k2 v2 v2' (map_set acc k v') f rest Hok').
    + reflexivity.
    + repeat (rewrite !slength_app in * || cbn [String.length append str1] in *). lia.
Qed.

Lemma insert_by_key_map {V W} (g : V -> W) (k : string) (v : V) (l : list (string * V)) :
  insert_by_key k (g v) (map (fun kv => (fst kv, g (snd kv))) l)
  = map (fun kv => (fst kv, g (snd kv))) (insert_by_key k v l).
Proof.
  induction l as [|[k' v'] l IH]; cbn [map insert_by_key fst snd]; [reflexivity|].
  destruct (String.ltb k' k); cbn [map fst snd]; [now rewrite IH|reflexivity].
Qed.

Lemma sort_by_key_map {V W} (g : V -> W) (l : list (string * V)) :
  sort_by_key (map (fun kv => (fst kv, g (snd kv))) l)
  = map (fun kv => (fst kv, g (snd kv))) (sort_by_key l).
Proof.
  induction l as [|[k v] l IH]; cbn [map sort_by_key fst snd]; [reflexivity|].
  now rewrite IH, insert_by_key_map.
Qed.

Lemma Marshal_GObj (m : list (string * gval)) :
  Marshal (GObj m) = "{" ++ join_comma (map enc_entry (sort_by_key m)) ++ "}".
Proof.
  cbn [Marshal]. rewrite (sort_by_key_map Marshal), map_map. reflexivity.
Qed.

Lemma insert_by_key_perm {V} (k : string) (v : V) (l : list (string * V)) :
  Permutation (insert_by_key k v l) ((k, v) :: l).
Proof.
  induction l as [|[k' v'] l IH]; cbn [insert_by_key]; [reflexivity|].
  destruct (String.ltb k' k); [|reflexivity].
  eapply perm_trans; [apply perm_skip, IH|apply perm_swap].
Qed.

Lemma sort_by_key_perm {V} (l : list (string * V)) : Permutation (sort_by_key l) l.
Proof.
  induction l as [|[k v] l IH]; cbn [sort_by_key]; [reflexivity|].
  eapply perm_trans; [apply insert_by_key_perm|apply perm_skip, IH].
Qed.

Lemma map_get_perm {V} (l1 l2 : list (string * V)) (k : string) :
  NoDup (map fst l1) -> Permutation l1 l2 -> map_get l1 k = map_get l2 k.
Proof.
  intros Hnd Hp. induction Hp as [|[k1 v1] l l' Hp IH|[k1 v1] [k2 v2] l|l l' l'' Hp1 IH1 Hp2 IH2].
  - reflexivity.
  - cbn [map_get]. inversion Hnd; subst. now rewrite IH.
  - cbn [map_get]. cbn [map fst] in Hnd. inversion Hnd as [|? ? Hn1 Hnd']; subst.
    destruct (String.eqb_spec k k2), (String.eqb_spec k k1); subst; try reflexivity.
    exfalso. apply Hn1. left. reflexivity.
  - rewrite IH1 by exact Hnd. apply IH2.
    eapply Permutation_NoDup; [apply Permutation_map, Hp1|exact Hnd].
Qed.

Lemma map_set_fresh {V} (acc : list (string * V)) (k : string) (v : V) :
  ~ In k (map fst acc) -> map_set acc k v = (acc ++ [(k, v)])%list.
Proof.
  induction acc as [|[k' v'] acc IH]; intros Hn; cbn [map_set]; [reflexivity|].
  destruct (String.eqb_spec k k').
  - exfalso. apply Hn. left. now subst.
  - cbn [app]. rewrite IH; [reflexivity|]. intros H. apply Hn. right. exact H.
Qed.

Lemma set_all_fresh (L : list (string * gval)) : forall acc,
  NoDup (map fst (acc ++ L)) -> set_all L acc = (acc ++ L)%list.
Proof.
  induction L as [|[k v] L IH]; intros acc Hnd; cbn [set_all fold_left].
  - now rewrite app_nil_r.
  - unfold set_all in IH. cbn [fst snd]. rewrite map_set_fresh.
    + rewrite IH; [now rewrite <- app_assoc|now rewrite <- app_assoc].
    + rewrite map_app in Hnd. cbn [map fst] in Hnd.
      apply NoDup_remove_2 in Hnd. intros H. apply Hnd. apply in_or_app. now left.
Qed.

Lemma parse_value_obj_open (f : nat) (X : string) :
  parse_value (S f) (String "{" (String quote_char X)) = parse_members f [] X.
Proof. reflexivity. Qed.

Lemma Forall_perm {A} (P : A -> Prop) (l1 l2 : list A) :
  Permutation l1 l2 -> Forall P l1 -> Forall P l2.
Proof.
  intros Hp H. apply Forall_forall. intros x Hx.
  eapply Forall_forall; [exact H|]. eapply Permutation_in; [symmetry; exact Hp|exact Hx].
Qed.

Lemma NoDup_keys_perm {V} (l1 l2 : list (string * V)) :
  Permutation l1 l2 -> NoDup (map fst l1) -> NoDup (map fst l2).
Proof. intros Hp. apply Permutation_NoDup, Permutation_map, Hp. Qed.

Lemma insert_by_key_Forall2 (k : string) (v v' : gval) (l l' : list (string * gval)) :
  entry_ok (k, v) (k, v') -> Forall2 entry_ok l l' ->
  Forall2 entry_ok (insert_by_key k v l) (insert_by_key k v' l').
Proof.
  intros Hkv Hl. induction Hl as [|[k1 v1] [k1' v1'] l l' H1 Hl IH];
    cbn [insert_by_key]; [constructor; [exact Hkv|constructor]|].
  destruct H1 as [Hk1 H1]. cbn [fst] in Hk1. subst k1'.
  destruct (String.ltb k1 k).
  - constructor; [split; [reflexivity|exact H1]|exact IH].
  - constructor; [exact Hkv|constructor; [split; [reflexivity|exact H1]|exact Hl]].
Qed.

Lemma sort_by_key_Forall2 (l l' : list (string * gval)) :
  Forall2 entry_ok l l' -> Forall2 entry_ok (sort_by_key l) (sort_by_key l').
Proof.
  intros Hl. induction Hl as [|[k v] [k' v'] l l' H1 Hl IH]; cbn [sort_by_key]; [constructor|].
  destruct H1 as [Hk H1]. cbn [fst] in Hk. subst k'.
  apply insert_by_key_Forall2; [split; [reflexivity|exact H1]|exact IH].
Qed.

Lemma Forall2_entry_keys (l l' : list (string * gval)) :
  Forall2 entry_ok l l' -> map fst l' = map fst l.
Proof.
  intros Hl. induction Hl as [|x x' l l' [Hk _] Hl IH]; cbn [map]; congruence.
Qed.

(** A marshalled object with distinct keys reads back as its members in key
    order. *)
Lemma Marshal_GObj_parses (m m' : list (string * gval)) :
  NoDup (map fst m) -> Forall2 entry_ok m m' ->
  parses_to (Marshal (GObj m)) (GObj (sort_by_key m')).
Proof.
  intros Hnd Hok f rest Hf.
  assert (HS := sort_by_key_Forall2 m m' Hok).
  assert (HndS : NoDup (map fst (sort_by_key m'))).
  { rewrite (Forall2_entry_keys _ _ HS).
    eapply NoDup_keys_perm; [symmetry; apply sort_by_key_perm|exact Hnd]. }
  rewrite Marshal_GObj in *. rewrite !sappend_assoc in Hf |- *.
  remember (sort_by_key m') as S' eqn:ES'. clear ES'.
  destruct (sort_by_key m) as [|[k v] L] eqn:ES; inversion HS as [|? [k' v'] ? L' [Hk _] HL]; subst.
  - destruct f as [|f]; [cbn in Hf; lia|]. reflexivity.
  - cbn [fst] in Hk. subst k'.
    assert (E : "{" ++ join_comma (map enc_entry ((k, v) :: L)) ++ "}" ++ rest =
                String "{" (String quote_char (string_body (String.length k) k ++
                  str1 quote_char ++ String ":" (Marshal v ++ entries_tail L ++ "}" ++ rest)))).
    { rewrite join_comma_cons. unfold enc_entry. cbn [fst snd].
      rewrite appendString_split. rewrite !sappend_assoc. cbn [append].
      rewrite !sappend_assoc. reflexivity. }
    rewrite E in *. destruct f as [|f]; [cbn in Hf; lia|].
    rewrite parse_value_obj_open.
    rewrite (parse_members_entries L L' k v v'); [| exact HS | cbn [String.length] in Hf; lia].
    rewrite set_all_fresh by exact HndS. reflexivity.
Qed.

Lemma parse_value_ws (f : nat) (s : string) :
  skip_ws s = EmptyString -> parse_value (S f) s = PErr ErrUnexpectedEOF.
Proof. intros H. cbn [parse_value]. rewrite H. reflexivity. Qed.

(** [json.Unmarshal] of a marshalled object. *)
Lemma UnmarshalMap_parses (e : string) (m : list (string * gval)) :
  parses_to e (GObj m) -> UnmarshalMap e = (Some m, None).
Proof.
  intros Hp.
  assert (Hv := Hp (S (String.length e)) EmptyString
                   ltac:(rewrite sappend_nil_r; lia)).
  rewrite sappend_nil_r in Hv.
  unfold UnmarshalMap, DecodeMap, read_value.
  destruct (skip_ws e) eqn:Ew.
  - rewrite parse_value_ws in Hv by exact Ew. discriminate.
  - rewrite Hv. reflexivity.
Qed.

Lemma map_get_map_values {V W} (g : V -> W) (l : list (string * V)) (k : string) :
  map_get (map (fun kv => (fst kv, g (snd kv))) l) k = option_map g (map_get l k).
Proof.
  induction l as [|[k' v] l IH]; cbn [map map_get fst snd]; [reflexivity|].
  destruct (String.eqb k k'); [reflexivity|exact IH].
Qed.

(** The payload of any configuration with valid UTF-8 strings reads back as
    the request descriptor of that configuration. *)
Lemma payload_parses_back (a : App) :
  utf8_valid (TargetURL (config a)) = true ->
  NoDup (map fst (Headers (config a))) ->
  Forall (fun kv => utf8_valid (fst kv) = true /\ utf8_valid (snd kv) = true)
         (Headers (config a)) ->
  exists m, UnmarshalMap (payload_of a) = (Some m, None) /\
            is_request_descriptor (config a) m.
Proof.
  intros Hurl Hnd Hhs.
  set (HM := map (fun kv => (fst kv, GStr (snd kv))) (Headers (config a))).
  assert (HndM : NoDup (map fst HM)) by (unfold HM; rewrite map_map; exact Hnd).
  assert (HokM : Forall2 entry_ok HM HM).
  { unfold HM. clear - Hhs.
    induction Hhs as [|[k v] l [Hk Hv] Hl IH]; cbn [map]; [constructor|]. constructor; [|exact IH].
    split; [reflexivity|]. split; [exact Hk|]. apply Marshal_GStr_parses, Hv. }
  set (m0 := [("method", GStr "GET"); ("url", GStr (TargetURL (config a)));
              ("headers", GObj HM)]).
  set (m1 := [("method", GStr "GET"); ("url", GStr (TargetURL (config a)));
              ("headers", GObj (sort_by_key HM))]).
  assert (Hnd0 : NoDup (map fst m0)).
  { cbn. constructor; [intros [H|[H|[]]]; discriminate|].
    constructor; [intros [H|[]]; discriminate|].
    constructor; [intros []|constructor]. }
  assert (Hnd1 : NoDup (map fst m1)) by exact Hnd0.
  assert (Hok0 : Forall2 entry_ok m0 m1).
  { constructor; [split; [reflexivity|split; [reflexivity|apply Marshal_GStr_parses; reflexivity]]|].
    constructor; [split; [reflexivity|split; [reflexivity|apply Marshal_GStr_parses, Hurl]]|].
    constructor; [split; [reflexivity|split; [reflexivity|apply Marshal_GObj_parses; assumption]]|].
    constructor. }
  exists (sort_by_key m1). split.
  { apply UnmarshalMap_parses. apply Marshal_GObj_parses; assumption. }
  assert (Hg : forall k, map_get (sort_by_key m1) k = map_get m1 k).
  { intros k. symmetry. apply map_get_perm; [exact Hnd1|symmetry; apply sort_by_key_perm]. }
  unfold is_request_descriptor. rewrite !Hg.
  split; [reflexivity|]. split; [reflexivity|]. split.
  - exists (sort_by_key HM). split; [reflexivity|]. intros k.
    rewrite <- (map_get_perm HM (sort_by_key HM) k HndM) by (symmetry; apply sort_by_key_perm).
    unfold HM. apply map_get_map_values.
  - intros k H1 H2 H3. rewrite Hg. cbn [m1 map_get].
    destruct (String.eqb_spec k "method"); [contradiction|].
    destruct (String.eqb_spec k "url"); [contradiction|].
    destruct (String.eqb_spec k "headers"); [contradiction|]. reflexivity.
Qed.

(** Everything [Run] does, by cases on what [Post] and the decoder return. *)
Lemma Run_cases (a : App) :
  Run a [] =
  match client a (post_url a) "application/json" (payload_of a) with
  | PostErr e => (Some ("failed to send request: " ++ e), [post_event a])
  | PostOk resp =>
    match DecodeMap (Body resp) with
    | (_, Some e) =>
      (Some ("failed to parse response: " ++ json_error_string e),
       [post_event a; EvClose])
    | (r, None) => (None, [post_event a; EvClose; EvSetOutputs (outputs_of r)])
    end
  end.
Proof.
  unfold Run, preparePayload, sendRequest, parseResponse, setOutputs,
    bind, emit, ret, post_event, post_url, payload_of; simpl.
  destruct (client a _ _ _) as [resp|e]; [|reflexivity].
  destruct (DecodeMap (Body resp)) as [r [e|]]; reflexivity.
Qed.

Lemma prefix_app (p s : string) : String.prefix p (p ++ s) = true.
Proof.
  induction p as [|c p IH]; simpl.
  - destruct s; reflexivity.
  - destruct (Ascii.ascii_dec c c); [exact IH|congruence].
Qed.

Lemma contains_app_l (p s : string) : contains p (p ++ s) = true.
Proof.
  destruct p as [|c p].
  - destruct s; reflexivity.
  - assert (H := prefix_app (String c p) s).
    simpl in H |- *. rewrite H. reflexivity.
Qed.

Lemma contains_app_prefix (p q s : string) :
  contains p (p ++ q ++ s) = true.
Proof. apply contains_app_l. Qed.

(** Everything the Forwarder's [main] does. *)
Lemma forwarder_main_cases (c : HTTPClient) :
  forwarder_main c [] =
  (tt, (snd (Run (NewApp c DefaultConfig) [])
        ++ match fst (Run (NewApp c DefaultConfig) []) with
           | Some e => [EvStdout ("Error: " ++ e ++ newline)]
           | None => []
           end)%list).
Proof.
  unfold forwarder_main, bind at 1.
  destruct (Run (NewApp c DefaultConfig) []) as [[e|] l]; simpl;
    [reflexivity | unfold ret; rewrite app_nil_r; reflexivity].
Qed.

Lemma contains_failed_send (e : string) :
  contains "failed to send request" ("failed to send request: " ++ e) = true.
Proof. apply (contains_app_l "failed to send request" (": " ++ e)). Qed.

Lemma contains_failed_parse (e : string) :
  contains "failed to parse response" ("failed to parse response: " ++ e) = true.
Proof. apply (contains_app_l "failed to parse response" (": " ++ e)). Qed.

(** ** C1 *)

(** C1 (counterexample): with the proxy response
    [{"status_code":200,"body":"ok","duration":"10ms"}] the published
    outputs are not that mapping: they have no key [body]. *)
Lemma setOutputs_body_key_counterexample :
  ~ (exists outs,
        In (EvSetOutputs outs) (events (Run (NewApp (mock_client proxy_ok_body) DefaultConfig)))
        /\ forall k, map_get outs k =
                     map_get [("status_code", GNum "200"); ("body", GStr "ok");
                              ("duration", GStr "10ms")] k).
Proof.
  intros [outs [Hin Heq]].
  vm_compute in Hin.
  destruct Hin as [H|[H|[H|[]]]]; try discriminate.
  injection H as <-. specialize (Heq "body"). vm_compute in Heq. discriminate.
Qed.

(** C1 (amended): when the decoded proxy response maps [status_code] to
    200, [body] to "ok" and [duration] to "10ms", the run succeeds and
    publishes exactly [{status_code:200, response_body:"ok",
    duration:"10ms"}]: the [body] field is published under the output key
    [response_body]. *)
Theorem setOutputs_publishes_proxy_fields (a : App) (resp : Response)
  (m : list (string * gval))
  (Hpost : client a (post_url a) "application/json" (payload_of a) = PostOk resp)
  (Hdec : DecodeMap (Body resp) = (Some m, None))
  (Hs : map_get m "status_code" = Some (GNum "200"))
  (Hb : map_get m "body" = Some (GStr "ok"))
  (Hd : map_get m "duration" = Some (GStr "10ms")) :
  Run a [] =
  (None, [post_event a; EvClose;
          EvSetOutputs [("status_code", GNum "200"); ("response_body", GStr "ok");
                        ("duration", GStr "10ms")]]).
Proof.
  rewrite Run_cases, Hpost, Hdec. unfold outputs_of, index.
  rewrite Hs, Hb, Hd. reflexivity.
Qed.

Lemma setOutputs_publishes_proxy_fields_witness :
  Run (NewApp (mock_client proxy_ok_body) DefaultConfig) [] =
  (None, [post_event (NewApp (mock_client proxy_ok_body) DefaultConfig); EvClose;
          EvSetOutputs [("status_code", GNum "200"); ("response_body", GStr "ok");
                        ("duration", GStr "10ms")]]).
Proof.
  apply (setOutputs_publishes_proxy_fields _ {| StatusCode := 200; Body := proxy_ok_body |}
           [("status_code", GNum "200"); ("body", GStr "ok"); ("duration", GStr "10ms")]);
    vm_compute; reflexivity.
Defined.

(** ** C2 *)

(** C2 (counterexample): when [Post] fails, the Forwarder writes its error
    report to standard output, and nothing at all to standard error. *)
Lemma forwarder_error_on_stdout_counterexample :
  events (forwarder_main (failing_client "network error")) =
    [post_event (NewApp (failing_client "network error") DefaultConfig);
     EvStdout ("Error: failed to send request: network error" ++ newline)]
  /\ filter is_stderr (events (forwarder_main (failing_client "network error"))) = [].
Proof. split; vm_compute; reflexivity. Qed.

(** C2 (amended): the Forwarder never writes to standard error.  When its
    run fails, the error is printed on standard output as the line
    ["Error: " ++ msg] where [msg] starts with the failing stage
    (["failed to send request: "] or ["failed to parse response: "]), and
    no outputs are published. *)
Theorem forwarder_reports_errors_on_stdout (c : HTTPClient) :
  filter is_stderr (events (forwarder_main c)) = [] /\
  match value (Run (NewApp c DefaultConfig)) with
  | Some msg =>
    (String.prefix "failed to send request: " msg
     || String.prefix "failed to parse response: " msg) = true /\
    filter is_set_outputs (events (forwarder_main c)) = [] /\
    last (events (forwarder_main c)) EvClose = EvStdout ("Error: " ++ msg ++ newline)
  | None => True
  end.
Proof.
  unfold events, value. rewrite forwarder_main_cases. cbn [snd fst].
  rewrite Run_cases.
  destruct (client _ _ _ _) as [resp|e];
    [destruct (DecodeMap (Body resp)) as [r [e|]]|];
    cbn [fst snd filter is_stderr is_set_outputs post_event app last].
  - repeat split. rewrite prefix_app. apply orb_true_r.
  - split; [reflexivity|exact I].
  - repeat split. rewrite prefix_app. reflexivity.
Qed.

(** ** C4 *)

(** C4: when [Post] returns an error, [Run] fails with a message containing
    ["failed to send request"] and publishes no outputs. *)
Theorem Run_send_error (a : App) (e : string)
  (Hpost : client a (post_url a) "application/json" (payload_of a) = PostErr e) :
  exists msg, value (Run a) = Some msg /\
    contains "failed to send request" msg = true /\
    filter is_set_outputs (events (Run a)) = [].
Proof.
  unfold value, events. rewrite Run_cases, Hpost.
  exists ("failed to send request: " ++ e). cbn [fst snd filter is_set_outputs].
  split; [reflexivity|split; [apply contains_failed_send|reflexivity]].
Qed.

Lemma Run_send_error_witness :
  exists msg, value (Run (NewApp (failing_client "network error") DefaultConfig)) = Some msg /\
    contains "failed to send request" msg = true /\
    filter is_set_outputs (events (Run (NewApp (failing_client "network error") DefaultConfig))) = [].
Proof. apply (Run_send_error _ "network error"). reflexivity. Defined.

(** ** C5 *)




(** ** C7 *)

(** C7: when the proxy response decodes to the empty object, [Run]
    succeeds and publishes its three outputs ([status_code],
    [response_body] for the body, [duration]) all nil. *)
Theorem Run_empty_object (a : App) (resp : Response)
  (Hpost : client a (post_url a) "application/json" (payload_of a) = PostOk resp)
  (Hdec : DecodeMap (Body resp) = (Some [], None)) :
  Run a [] =
  (None, [post_event a; EvClose;
          EvSetOutputs [("status_code", GNull); ("response_body", GNull);
                        ("duration", GNull)]]).
Proof. rewrite Run_cases, Hpost, Hdec. reflexivity. Qed.

Lemma Run_empty_object_witness :
  Run (NewApp (mock_client "{}") DefaultConfig) [] =
  (None, [post_event (NewApp (mock_client "{}") DefaultConfig); EvClose;
          EvSetOutputs [("status_code", GNull); ("response_body", GNull);
                        ("duration", GNull)]]).
Proof.
  apply (Run_empty_object _ {| StatusCode := 200; Body := "{}" |});
    vm_compute; reflexivity.
Defined.

(** ** C3 *)

(** C3: whatever the proxy answers, a run of the Forwarder posts the
    payload of [preparePayload], and [json.Unmarshal] of that body gives
    back the map [{method:"GET", url:<TargetURL>, headers:<Headers>}] of
    the configuration, with no other key.  The configured strings are
    valid UTF-8 (as those of [DefaultConfig] are) and the header keys are
    distinct (they are the keys of a Go map). *)
Theorem preparePayload_parses_back (c : HTTPClient) (cfg : Config)
  (Hurl : utf8_valid (TargetURL cfg) = true)
  (Hkeys : NoDup (map fst (Headers cfg)))
  (Hhdrs : Forall (fun kv => utf8_valid (fst kv) = true /\ utf8_valid (snd kv) = true)
                  (Headers cfg)) :
  exists body m,
    preparePayload (NewApp c cfg) = Ok body /\
    In (EvPost (ConnectionsURL cfg) "application/json" body)
       (events (Run (NewApp c cfg))) /\
    UnmarshalMap body = (Some m, None) /\
    is_request_descriptor cfg m.
Proof.
  destruct (payload_parses_back (NewApp c cfg) Hurl Hkeys Hhdrs) as [m [Hu Hd]].
  exists (payload_of (NewApp c cfg)), m.
  split; [reflexivity|]. split; [|split; [exact Hu|exact Hd]].
  unfold events. rewrite Run_cases.
  destruct (client _ _ _ _) as [resp|e];
    [destruct (DecodeMap (Body resp)) as [r [e|]]|]; left; reflexivity.
Qed.

(** The run of [main] on [DefaultConfig], with a proxy that answers. *)
Lemma preparePayload_parses_back_witness :
  exists body m,
    preparePayload (NewApp (mock_client proxy_ok_body) DefaultConfig) = Ok body /\
    In (EvPost (ConnectionsURL DefaultConfig) "application/json" body)
       (events (Run (NewApp (mock_client proxy_ok_body) DefaultConfig))) /\
    UnmarshalMap body = (Some m, None) /\
    is_request_descriptor DefaultConfig m.
Proof.
  apply (preparePayload_parses_back (mock_client proxy_ok_body) DefaultConfig).
  - vm_compute. reflexivity.
  - cbn. constructor; [intros [H|[]]; discriminate|constructor; [intros []|constructor]].
  - repeat constructor.
Defined.

(** ** C6 *)

Lemma contains_cons (p : string) (c : ascii) (h : string) :
  contains p (String c h) = String.prefix p (String c h) || contains p h.
Proof. reflexivity. Qed.

Lemma contains_app_r (p x y : string) : contains p (x ++ p ++ y) = true.
Proof.
  induction x as [|c x IH].
  - exact (contains_app_l p y).
  - change (String c x ++ p ++ y) with (String c (x ++ p ++ y)).
    rewrite contains_cons, IH. apply orb_true_r.
Qed.

(** C6: the Greeter publishes one output, [message].  When [name] is
    absent, not a string, or the empty string, it is the greeting for
    ["World"]; for a non-empty string it is the greeting for that string,
    which it contains. *)
Theorem greeter_message (inputs : list (string * gval)) :
  exists msg,
    events (greeter_main inputs) = [EvSetOutputs [("message", GStr msg)]] /\
    match map_get inputs "name" with
    | Some (GStr s) =>
      if String.eqb s EmptyString then msg = getMessage "World"
      else msg = getMessage s /\ contains s msg = true
    | _ => msg = getMessage "World"
    end.
Proof.
  unfold events, greeter_main.
  destruct (map_get inputs "name") as [v|]; [destruct v|]; cbn;
    try (eexists; split; reflexivity).
  destruct (String.eqb s EmptyString); cbn.
  - eexists; split; reflexivity.
  - eexists; split; [reflexivity|]. split; [reflexivity|].
    exact (contains_app_r s "Hello, " "!").
Qed.

(** ** C8 *)

(** C8: a run of the Forwarder makes exactly one [Post] call, to
    [http://localhost:8081/api/v1/connections/send] with content type
    [application/json] and the payload of [preparePayload] as body. *)
Theorem forwarder_posts_once (c : HTTPClient) :
  exists p,
    preparePayload (NewApp c DefaultConfig) = Ok p /\
    filter is_post (events (forwarder_main c)) =
      [EvPost "http://localhost:8081/api/v1/connections/send" "application/json" p].
Proof.
  eexists. split; [reflexivity|].
  unfold events. rewrite forwarder_main_cases. cbn [snd fst].
  rewrite Run_cases.
  destruct (client _ _ _ _) as [resp|e];
    [destruct (DecodeMap (Body resp)) as [r [e|]]|]; reflexivity.
Qed.

(** ** C9 *)

(** C9: [parseResponse] closes the response body exactly once, after
    decoding and before returning, whatever the decoder returns: its only
    effect on the log is one [Close]. *)
Theorem parseResponse_closes_body_once (resp : Response) (log : list event) :
  parseResponse resp log = (DecodeMap (Body resp), (log ++ [EvClose])%list).
Proof. reflexivity. Qed.

(** ** C10 *)

(** C10: for a response body that is valid JSON, a value other than an
    object or [null] makes [Run] fail with ["failed to parse response"]
    and publish nothing, while [null] gives a successful run publishing
    three nil outputs. *)
Theorem Run_valid_json_not_object (a : App) (resp : Response)
  (Hpost : client a (post_url a) "application/json" (payload_of a) = PostOk resp)
  (Hvalid : Valid (Body resp) = true) :
  match read_value (Body resp) with
  | POk (GObj _) _ => True
  | POk GNull _ =>
    Run a [] = (None, [post_event a; EvClose;
                       EvSetOutputs [("status_code", GNull); ("response_body", GNull);
                                     ("duration", GNull)]])
  | POk _ _ =>
    exists msg, value (Run a) = Some msg /\
      contains "failed to parse response" msg = true /\
      filter is_set_outputs (events (Run a)) = []
  | PErr _ => False
  end.
Proof.
  unfold value, events. rewrite Run_cases, Hpost.
  unfold Valid in Hvalid. unfold DecodeMap.
  destruct (read_value (Body resp)) as [e|v rest]; [discriminate|].
  destruct v; try exact I; try reflexivity;
    (eexists; split; [reflexivity|split; [apply contains_failed_parse|reflexivity]]).
Qed.

Lemma Run_valid_json_not_object_witness :
  Valid "[1, 2]" = true /\
  exists msg, value (Run (NewApp (mock_client "[1, 2]") DefaultConfig)) = Some msg /\
    contains "failed to parse response" msg = true /\
    filter is_set_outputs (events (Run (NewApp (mock_client "[1, 2]") DefaultConfig))) = [].
Proof.
  split; [vm_compute; reflexivity|].
  exact (Run_valid_json_not_object (NewApp (mock_client "[1, 2]") DefaultConfig)
           {| StatusCode := 200; Body := "[1, 2]" |} eq_refl eq_refl).
Defined.

(* ------------------------------------------------------------------ *)
(** ** Further properties of the Forwarder *)

Ltac slen :=
  repeat (first [rewrite slength_app in * | progress cbn [String.length append str1] in *]).

Lemma all_ws_skip_ws (s : string) : all_ws s = true -> skip_ws s = EmptyString.
Proof.
  induction s as [|c s IH]; cbn [all_ws skip_ws]; [reflexivity|].
  intros H. apply andb_prop in H as [H1 H2]. rewrite H1. apply IH, H2.
Qed.

Lemma skip_ws_app_ws (w s : string) : all_ws w = true -> skip_ws (w ++ s) = skip_ws s.
Proof.
  induction w as [|c w IH]; cbn [all_ws skip_ws append]; [reflexivity|].
  intros H. apply andb_prop in H as [H1 H2]. rewrite H1. apply IH, H2.
Qed.

Lemma DecodeMap_all_ws (s : string) : all_ws s = true -> DecodeMap s = (None, Some ErrEOF).
Proof. intros H. unfold DecodeMap, read_value. rewrite all_ws_skip_ws by exact H. reflexivity. Qed.

(** X1: Run never reads the status code of the response: two clients that answer the same post with responses of equal bodies give the same result and the same effects, whatever their status codes. *)
Theorem Run_status_code_ignored (c1 c2 : HTTPClient) (cfg : Config) (resp1 resp2 : Response)
  (H1 : c1 (ConnectionsURL cfg) "application/json" (payload_of (NewApp c1 cfg)) = PostOk resp1)
  (H2 : c2 (ConnectionsURL cfg) "application/json" (payload_of (NewApp c2 cfg)) = PostOk resp2)
  (Hb : Body resp1 = Body resp2) :
  Run (NewApp c1 cfg) [] = Run (NewApp c2 cfg) [].
Proof.
  rewrite !Run_cases.
  change (client (NewApp c1 cfg)) with c1. change (client (NewApp c2 cfg)) with c2.
  change (post_url (NewApp c1 cfg)) with (ConnectionsURL cfg).
  change (post_url (NewApp c2 cfg)) with (ConnectionsURL cfg).
  rewrite H1, H2, Hb. reflexivity.
Qed.

Lemma Run_status_code_ignored_witness :
  Run (NewApp (fun _ _ _ => PostOk (MockResponse 200 [("body", GStr "ok")])) DefaultConfig) [] =
  Run (NewApp (fun _ _ _ => PostOk (MockResponse 500 [("body", GStr "ok")])) DefaultConfig) [].
Proof. apply (Run_status_code_ignored _ _ DefaultConfig (MockResponse 200 [("body", GStr "ok")])
                (MockResponse 500 [("body", GStr "ok")])); reflexivity. Defined.

(** X2: A response whose body is empty or only white space makes Run fail with "failed to parse response: EOF" after posting once and closing the body; nothing is published. *)
Theorem Run_blank_body (a : App) (resp : Response)
  (Hpost : client a (post_url a) "application/json" (payload_of a) = PostOk resp)
  (Hws : all_ws (Body resp) = true) :
  Run a [] = (Some "failed to parse response: EOF", [post_event a; EvClose]).
Proof. rewrite Run_cases, Hpost, DecodeMap_all_ws by exact Hws. reflexivity. Qed.

Lemma Run_blank_body_witness :
  Run (NewApp (fun _ _ _ => PostOk {| StatusCode := 200; Body := " " ++ newline |}) DefaultConfig) [] =
  (Some "failed to parse response: EOF",
   [post_event (NewApp (fun _ _ _ => PostOk {| StatusCode := 200; Body := " " ++ newline |}) DefaultConfig);
    EvClose]).
Proof. apply (Run_blank_body _ {| StatusCode := 200; Body := " " ++ newline |}); reflexivity. Defined.

(** X3: A response body whose first byte after white space is a printable character that cannot start a JSON value makes Run fail with the decoder's message "invalid character 'c' looking for beginning of value", after posting once and closing the body.  The single quote and the backslash are left out: Go's [quoteChar] writes them escaped, and this is the set of bytes it writes as they are. *)
Theorem Run_bad_first_byte (a : App) (resp : Response) (ws rest : string) (c : ascii)
  (Hpost : client a (post_url a) "application/json" (payload_of a) = PostOk resp)
  (Hbody : Body resp = ws ++ String c rest)
  (Hws : all_ws ws = true)
  (Hprint : (32 <? code c) && (code c <? 127) && negb (code c =? 39) && negb (code c =? 92) = true)
  (Hc : negb (existsb (N.eqb (code c)) [123; 91; 34; 45; 116; 102; 110]) && negb (is_digit c) = true) :
  Run a [] =
  (Some ("failed to parse response: invalid character '" ++ str1 c ++
         "' looking for beginning of value"),
   [post_event a; EvClose]).
Proof.
  rewrite Run_cases, Hpost, Hbody.
  assert (Hs : skip_ws (ws ++ String c rest) = String c rest).
  { rewrite skip_ws_app_ws by exact Hws. cbn [skip_ws].
    unfold is_space. apply andb_prop in Hprint as [Hp _]. apply andb_prop in Hp as [Hp _].
    apply andb_prop in Hp as [Hp _]. apply N.ltb_lt in Hp.
    replace (code c =? 32) with false by (symmetry; apply N.eqb_neq; lia).
    replace (code c =? 9) with false by (symmetry; apply N.eqb_neq; lia).
    replace (code c =? 10) with false by (symmetry; apply N.eqb_neq; lia).
    replace (code c =? 13) with false by (symmetry; apply N.eqb_neq; lia). reflexivity. }
  unfold DecodeMap, read_value. rewrite Hs. cbn [parse_value]. rewrite Hs.
  apply andb_prop in Hc as [Hc Hd]. apply negb_true_iff in Hc, Hd.
  cbn [existsb] in Hc. rewrite !orb_false_iff in Hc.
  destruct Hc as [E1 [E2 [E3 [E4 [E5 [E6 [E7 _]]]]]]].
  rewrite E1, E2, E3, E4, Hd, E5, E6, E7. reflexivity.
Qed.

Lemma Run_bad_first_byte_witness :
  Run (NewApp (mock_client "invalid json") DefaultConfig) [] =
  (Some ("failed to parse response: invalid character '" ++ str1 "i" ++
         "' looking for beginning of value"),
   [post_event (NewApp (mock_client "invalid json") DefaultConfig); EvClose]).
Proof. apply (Run_bad_first_byte _ {| StatusCode := 200; Body := "invalid json" |} "" "nvalid json" "i");
  reflexivity. Defined.

(** X4: Run publishes outputs exactly once when it returns no error, and never when it returns one. *)
Theorem Run_outputs_only_on_success (a : App) :
  List.length (filter is_set_outputs (events (Run a))) =
  (match value (Run a) with None => 1 | Some _ => 0 end)%nat.
Proof.
  unfold events, value. rewrite Run_cases.
  destruct (client a _ _ _) as [resp|e]; [|reflexivity].
  destruct (DecodeMap (Body resp)) as [r [e|]]; reflexivity.
Qed.

(** X5: Run closes the response body exactly once when the client returns a response, and never when the client returns an error. *)
Theorem Run_closes_iff_response (a : App) :
  List.length (filter is_close (events (Run a))) =
  (match client a (post_url a) "application/json" (payload_of a) with
   | PostOk _ => 1 | PostErr _ => 0 end)%nat.
Proof.
  unfold events. rewrite Run_cases.
  destruct (client a _ _ _) as [resp|e]; [|reflexivity].
  destruct (DecodeMap (Body resp)) as [r [e|]]; reflexivity.
Qed.

(** X6: With a MockHTTPClient whose PostFunc is unset, Run fails with "failed to send request: mock not implemented" after its one post, and neither closes a body nor publishes outputs. *)
Theorem Run_mock_not_implemented (cfg : Config) :
  Run (NewApp (MockHTTPClient_Post None) cfg) [] =
  (Some "failed to send request: mock not implemented",
   [post_event (NewApp (MockHTTPClient_Post None) cfg)]).
Proof. rewrite Run_cases. reflexivity. Qed.

Lemma keys_distinct_NoDup (l : list string) : keys_distinct l = true -> NoDup l.
Proof.
  induction l as [|k l IH]; cbn [keys_distinct]; intros H; [constructor|].
  apply andb_prop in H as [H1 H2]. constructor; [|exact (IH H2)].
  intros Hin. apply negb_true_iff, not_true_iff_false in H1. rewrite existsb_exists in H1.
  apply H1. exists k. split; [exact Hin|apply String.eqb_refl].
Qed.

Lemma Marshal_plain_head (v : gval) : plain v = true ->
  exists c t, Marshal v = String c t /\ is_space c = false /\ (code c =? 93) = false.
Proof.
  destruct v as [| [] | | s | l | m]; cbn [plain]; intros H; try discriminate;
    eexists; eexists; split; try reflexivity; split; reflexivity.
Qed.

Lemma parse_value_arr_open (f : nat) (c : ascii) (X : string) :
  is_space c = false -> (code c =? 93) = false ->
  parse_value (S f) (String "[" (String c X)) =
  match parse_value f (String c X) with
  | PErr e => PErr e
  | POk v r => parse_elems f [v] r
  end.
Proof. intros H1 H2. simpl. rewrite H1. simpl. rewrite H2. reflexivity. Qed.

Lemma parse_elems_comma (f : nat) (acc : list gval) (X : string) :
  parse_elems (S f) acc (String "," X) =
  match parse_value f X with
  | PErr e => PErr e
  | POk v r' => parse_elems f (acc ++ [v]) r'
  end.
Proof. reflexivity. Qed.

Lemma join_comma_Marshal_cons (x : gval) (L : list gval) :
  join_comma (map Marshal (x :: L)) = Marshal x ++ elems_tail L.
Proof. destruct L; cbn [map join_comma elems_tail]; [now rewrite sappend_nil_r|reflexivity]. Qed.

Lemma parse_elems_tail (L : list gval) : forall acc f rest,
  Forall (fun x => parses_to (Marshal x) (norm x)) L ->
  (String.length (elems_tail L ++ "]" ++ rest) < f)%nat ->
  parse_elems f acc (elems_tail L ++ "]" ++ rest) = POk (GArr (acc ++ map norm L)) rest.
Proof.
  induction L as [|y L IH]; intros acc f rest HL Hf; (destruct f as [|f]; [cbn in Hf; lia|]).
  - cbn [map]. rewrite app_nil_r. reflexivity.
  - inversion HL as [|? ? Hy HL']; subst.
    cbn [elems_tail]. rewrite join_comma_Marshal_cons.
    cbn [elems_tail] in Hf. rewrite join_comma_Marshal_cons in Hf.
    rewrite !sappend_assoc in Hf |- *. cbn [append]. rewrite parse_elems_comma.
    rewrite Hy by (slen; lia).
    change (String "]" rest) with ("]" ++ rest).
    rewrite IH; [| exact HL' | slen; lia].
    cbn [map]. rewrite <- app_assoc. reflexivity.
Qed.

Lemma Forall2_map_r {A B} (R : A -> B -> Prop) (g : A -> B) (l : list A) :
  Forall (fun x => R x (g x)) l -> Forall2 R l (map g l).
Proof. induction 1; constructor; assumption. Qed.

Lemma Marshal_plain_parses : forall v, plain v = true -> parses_to (Marshal v) (norm v).
Proof.
  refine (gval_ind2 (fun v => plain v = true -> parses_to (Marshal v) (norm v)) _ _ _ _ _ _).
  - intros _ f rest Hf. destruct f as [|f]; [cbn in Hf; lia|]. reflexivity.
  - intros [] _ f rest Hf; (destruct f as [|f]; [cbn in Hf; lia|]); reflexivity.
  - intros l H. discriminate.
  - intros s H. apply Marshal_GStr_parses, H.
  - intros l IH Hp f rest Hf. cbn [plain] in Hp.
    assert (HL : Forall (fun x => parses_to (Marshal x) (norm x)) l).
    { rewrite forallb_forall in Hp. rewrite Forall_forall in IH |- *.
      intros x Hx. apply IH; [exact Hx|apply Hp, Hx]. }
    destruct l as [|x L].
    + destruct f as [|f]; [cbn in Hf; lia|]. reflexivity.
    + assert (Hpx : plain x = true) by (cbn [forallb] in Hp; now apply andb_prop in Hp as [? _]).
      destruct (Marshal_plain_head x Hpx) as [c [t [Ht [Hs H93]]]].
      inversion HL as [|? ? Hx HL']; subst.
      cbn [Marshal] in Hf |- *. rewrite join_comma_Marshal_cons in Hf |- *.
      rewrite !sappend_assoc in Hf |- *. rewrite Ht in Hf |- *. cbn [append] in Hf |- *.
      destruct f as [|f]; [cbn in Hf; lia|].
      rewrite parse_value_arr_open by assumption.
      replace (String c (t ++ elems_tail L ++ String "]" rest))
        with (Marshal x ++ (elems_tail L ++ "]" ++ rest)) by (rewrite Ht; reflexivity).
      rewrite Hx; [|rewrite Ht; slen; lia].
      change (String "]" rest) with ("]" ++ rest).
      apply parse_elems_tail; [exact HL'|]. slen; lia.
  - intros m IH Hp. cbn [plain] in Hp. apply andb_prop in Hp as [Hk Hp].
    apply Marshal_GObj_parses; [apply keys_distinct_NoDup, Hk|].
    apply Forall2_map_r. rewrite forallb_forall in Hp. rewrite Forall_forall in IH |- *.
    intros [k v] Hin. specialize (Hp _ Hin). apply andb_prop in Hp as [Hk' Hv].
    split; [reflexivity|]. split; [exact Hk'|]. apply (IH _ Hin), Hv.
Qed.

Lemma DecodeMap_parses (e : string) (m : list (string * gval)) :
  parses_to e (GObj m) -> DecodeMap e = (Some m, None).
Proof.
  intros Hp.
  assert (Hv := Hp (S (String.length e)) EmptyString
                   ltac:(rewrite sappend_nil_r; lia)).
  rewrite sappend_nil_r in Hv.
  unfold DecodeMap, read_value.
  destruct (skip_ws e) eqn:Ew.
  - rewrite parse_value_ws in Hv by exact Ew. discriminate.
  - rewrite Hv. reflexivity.
Qed.

Lemma map_get_norm_entries (m : list (string * gval)) (k : string) :
  NoDup (map fst m) ->
  map_get (sort_by_key (map (fun kv => (fst kv, norm (snd kv))) m)) k =
  option_map norm (map_get m k).
Proof.
  intros Hnd.
  set (M := map (fun kv => (fst kv, norm (snd kv))) m).
  rewrite (map_get_perm (sort_by_key M) M k); [apply map_get_map_values| |apply sort_by_key_perm].
  eapply NoDup_keys_perm; [symmetry; apply sort_by_key_perm|].
  unfold M. rewrite map_map. exact Hnd.
Qed.

Lemma DecodeMap_MockResponse (sc : N) (m : list (string * gval)) :
  plain (GObj m) = true ->
  DecodeMap (Body (MockResponse sc m)) =
  (Some (sort_by_key (map (fun kv => (fst kv, norm (snd kv))) m)), None).
Proof. intros Hp. apply DecodeMap_parses, (Marshal_plain_parses (GObj m) Hp). Qed.

(** X7: parseResponse of a MockResponse built from a map of marshallable values (null, booleans, valid UTF-8 strings, arrays and maps of them, keys distinct and valid UTF-8) and nested at most maxNestingDepth levels deep decodes without error to a map holding, under each key, the value given, with nested maps in sorted key order; it closes the body once. *)
Theorem parseResponse_MockResponse (sc : N) (m : list (string * gval)) (log : list event)
  (Hp : plain (GObj m) = true) (Hdepth : nesting_depth (GObj m) <= maxNestingDepth) :
  exists r, parseResponse (MockResponse sc m) log = ((Some r, None), (log ++ [EvClose])%list) /\
            forall k, map_get r k = option_map norm (map_get m k).
Proof.
  eexists. split.
  - unfold parseResponse, bind, emit, ret. rewrite DecodeMap_MockResponse by exact Hp. reflexivity.
  - intros k. apply map_get_norm_entries.
    cbn [plain] in Hp. apply andb_prop in Hp as [Hk _]. apply keys_distinct_NoDup, Hk.
Qed.

Lemma parseResponse_MockResponse_witness :
  exists r, parseResponse (MockResponse 200 [("body", GStr "success"); ("duration", GStr "100ms")]) [] =
            ((Some r, None), ([] ++ [EvClose])%list) /\
            forall k, map_get r k =
              option_map norm (map_get [("body", GStr "success"); ("duration", GStr "100ms")] k).
Proof.
  apply parseResponse_MockResponse; [vm_compute; reflexivity|apply N.leb_le; vm_compute; reflexivity].
Defined.

(** X8: When the client answers with such a MockResponse (nested at most maxNestingDepth levels deep), Run succeeds: it posts once, closes the body, and publishes status_code, response_body and duration read from the map given to MockResponse. *)
Theorem Run_MockResponse (cfg : Config) (sc : N) (m : list (string * gval))
  (Hp : plain (GObj m) = true) (Hdepth : nesting_depth (GObj m) <= maxNestingDepth) :
  let a := NewApp (MockHTTPClient_Post (Some (fun _ _ _ => PostOk (MockResponse sc m)))) cfg in
  Run a [] =
  (None, [post_event a; EvClose;
          EvSetOutputs (outputs_of (Some (map (fun kv => (fst kv, norm (snd kv))) m)))]).
Proof.
  intros a. rewrite Run_cases.
  change (client a (post_url a) "application/json" (payload_of a)) with (PostOk (MockResponse sc m)).
  cbv beta iota. rewrite DecodeMap_MockResponse by exact Hp.
  cbn [plain] in Hp. apply andb_prop in Hp as [Hk _]. apply keys_distinct_NoDup in Hk.
  unfold outputs_of, index. rewrite !map_get_norm_entries by exact Hk.
  rewrite !map_get_map_values. reflexivity.
Qed.

Lemma Run_MockResponse_witness :
  let a := NewApp (MockHTTPClient_Post (Some (fun _ _ _ =>
             PostOk (MockResponse 200 [("status_code", GNull);
                                       ("body", GObj [("message", GStr "success")]);
                                       ("duration", GStr "150ms")])))) DefaultConfig in
  Run a [] =
  (None, [post_event a; EvClose;
          EvSetOutputs (outputs_of (Some (map (fun kv => (fst kv, norm (snd kv)))
            [("status_code", GNull); ("body", GObj [("message", GStr "success")]);
             ("duration", GStr "150ms")])))]).
Proof.
  apply Run_MockResponse; [vm_compute; reflexivity|apply N.leb_le; vm_compute; reflexivity].
Defined.

Lemma string_compare_OT (a b : string) : String.compare a b = OrdersEx.String_as_OT.compare a b.
Proof.
  revert b; induction a as [|x a IH]; destruct b as [|y b]; try reflexivity.
Qed.

Lemma ltb_trans (a b c : string) :
  String.ltb a b = true -> String.ltb b c = true -> String.ltb a c = true.
Proof.
  unfold String.ltb. intros H1 H2. rewrite !string_compare_OT in *.
  destruct (OrdersEx.String_as_OT.compare a b) eqn:E1; try discriminate.
  destruct (OrdersEx.String_as_OT.compare b c) eqn:E2; try discriminate.
  assert (H : OrdersEx.String_as_OT.lt a c).
  { eapply (@RelationClasses.StrictOrder_Transitive _ _ OrdersEx.String_as_OT.lt_strorder); [exact E1|exact E2]. }
  unfold OrdersEx.String_as_OT.lt in H. now rewrite H.
Qed.

Lemma ltb_irrefl (a : string) : String.ltb a a = false.
Proof.
  unfold String.ltb. replace (String.compare a a) with Eq; [reflexivity|].
  symmetry. induction a as [|x a IH]; [reflexivity|]. cbn [String.compare]. unfold Ascii.compare. rewrite N.compare_refl. exact IH.
Qed.

Lemma ltb_total (a b : string) : a <> b -> String.ltb a b = false -> String.ltb b a = true.
Proof.
  unfold String.ltb. intros Hne H. rewrite String.compare_antisym.
  destruct (String.compare a b) eqn:E; try discriminate; try reflexivity.
  apply String.compare_eq_iff in E. contradiction.
Qed.

Lemma insert_by_key_sorted {V} (k : string) (v : V) (l : list (string * V)) :
  StronglySorted key_lt l -> ~ In k (map fst l) ->
  StronglySorted key_lt (insert_by_key k v l).
Proof.
  induction l as [|[k' v'] l IH]; intros Hs Hn; cbn [insert_by_key].
  - repeat constructor.
  - apply StronglySorted_inv in Hs as [Hs Hf].
    destruct (String.ltb k' k) eqn:E.
    + constructor; [apply IH; [exact Hs|intros H; apply Hn; right; exact H]|].
      apply Forall_forall. intros x Hx.
      apply (Permutation_in _ (insert_by_key_perm k v l)) in Hx as [<-|Hx]; [exact E|].
      eapply Forall_forall in Hf; [exact Hf|exact Hx].
    + assert (Hlt : String.ltb k k' = true).
      { apply ltb_total; [|exact E]. intros ->. apply Hn. left. reflexivity. }
      constructor; [constructor; [exact Hs|exact Hf]|].
      constructor; [exact Hlt|].
      eapply Forall_impl; [|exact Hf]. intros x Hx. eapply ltb_trans; [exact Hlt|exact Hx].
Qed.

Lemma sort_by_key_sorted {V} (l : list (string * V)) :
  NoDup (map fst l) -> StronglySorted key_lt (sort_by_key l).
Proof.
  induction l as [|[k v] l IH]; cbn [sort_by_key map fst]; intros Hnd; [constructor|].
  inversion Hnd as [|? ? Hn Hnd']; subst.
  apply insert_by_key_sorted; [apply IH, Hnd'|].
  intros H. apply Hn. eapply Permutation_in; [|exact H].
  apply Permutation_map, sort_by_key_perm.
Qed.

Lemma sorted_perm_eq {V} (l1 l2 : list (string * V)) :
  StronglySorted key_lt l1 -> StronglySorted key_lt l2 -> Permutation l1 l2 -> l1 = l2.
Proof.
  revert l2. induction l1 as [|x l1 IH]; intros l2 H1 H2 Hp.
  - symmetry. apply Permutation_nil, Hp.
  - destruct l2 as [|y l2]; [apply Permutation_sym, Permutation_nil in Hp; discriminate|].
    apply StronglySorted_inv in H1 as [H1 F1]. apply StronglySorted_inv in H2 as [H2 F2].
    assert (Hxy : x = y).
    { destruct (Permutation_in x Hp (or_introl eq_refl)) as [|Hx]; [congruence|].
      destruct (Permutation_in y (Permutation_sym Hp) (or_introl eq_refl)) as [|Hy]; [congruence|].
      eapply Forall_forall in F2; [|exact Hx]. eapply Forall_forall in F1; [|exact Hy].
      unfold key_lt in F1, F2. pose proof (ltb_trans _ _ _ F1 F2) as F.
      rewrite ltb_irrefl in F. discriminate. }
    subst y. f_equal. apply IH; [exact H1|exact H2|]. eapply Permutation_cons_inv, Hp.
Qed.

Lemma sort_by_key_canonical {V} (l1 l2 : list (string * V)) :
  NoDup (map fst l1) -> Permutation l1 l2 -> sort_by_key l1 = sort_by_key l2.
Proof.
  intros Hnd Hp. apply sorted_perm_eq.
  - apply sort_by_key_sorted, Hnd.
  - apply sort_by_key_sorted. eapply NoDup_keys_perm; [exact Hp|exact Hnd].
  - eapply perm_trans; [apply sort_by_key_perm|].
    eapply perm_trans; [exact Hp|]. symmetry. apply sort_by_key_perm.
Qed.

Lemma Marshal_GObj_ext (m1 m2 : list (string * gval)) :
  map (fun kv => (fst kv, Marshal (snd kv))) m1 = map (fun kv => (fst kv, Marshal (snd kv))) m2 ->
  Marshal (GObj m1) = Marshal (GObj m2).
Proof. intros H. cbn [Marshal]. rewrite H. reflexivity. Qed.

(** X9: The posted payload depends on the target URL and on the headers as a map only: reordering headers with distinct keys gives the same request body, whatever the client. *)
Theorem payload_header_order_irrelevant (c1 c2 : HTTPClient) (cfg1 cfg2 : Config)
  (Hurl : TargetURL cfg1 = TargetURL cfg2)
  (Hperm : Permutation (Headers cfg1) (Headers cfg2))
  (Hkeys : NoDup (map fst (Headers cfg1))) :
  payload_of (NewApp c1 cfg1) = payload_of (NewApp c2 cfg2).
Proof.
  unfold payload_of, payload_value. apply Marshal_GObj_ext. cbn [config NewApp map fst snd].
  rewrite Hurl. do 3 f_equal.
  rewrite !Marshal_GObj. do 3 f_equal. f_equal. f_equal. apply sort_by_key_canonical.
  - rewrite map_map. exact Hkeys.
  - apply Permutation_map, Hperm.
Qed.

Lemma payload_header_order_irrelevant_witness :
  payload_of (NewApp (mock_client "{}") DefaultConfig) =
  payload_of (NewApp (mock_client "{}")
    {| ConnectionsURL := ConnectionsURL DefaultConfig; TargetURL := TargetURL DefaultConfig;
       Headers := [("Accept", "application/json"); ("User-Agent", "Visual-Go-Test/1.0")] |}).
Proof.
  apply payload_header_order_irrelevant.
  - reflexivity.
  - apply perm_swap.
  - cbn. constructor; [intros [H|[]]; discriminate|constructor; [intros []|constructor]].
Defined.

Lemma sort_payload_keys {V} (v1 v2 v3 : V) :
  sort_by_key [("method", v1); ("url", v2); ("headers", v3)] =
  [("headers", v3); ("method", v1); ("url", v2)].
Proof. reflexivity. Qed.

(** X10: The posted payload is the JSON object with keys headers, method and url in that order: the headers map, the string "GET", and the target URL as a JSON string. *)
Theorem payload_layout (a : App) :
  payload_of a =
  "{" ++ q "headers" ++ ":" ++
    Marshal (GObj (map (fun kv => (fst kv, GStr (snd kv))) (Headers (config a)))) ++
  "," ++ q "method" ++ ":" ++ q "GET" ++
  "," ++ q "url" ++ ":" ++ appendString (TargetURL (config a)) ++ "}".
Proof.
  unfold payload_of, payload_value. rewrite Marshal_GObj, sort_payload_keys.
  cbn [map join_comma]. unfold enc_entry. cbn [fst snd].
  rewrite !sappend_assoc. reflexivity.
Qed.

Lemma all_bytes_app (p : ascii -> bool) (x y : string) :
  all_bytes p (x ++ y) = all_bytes p x && all_bytes p y.
Proof. induction x as [|c x IH]; cbn [append all_bytes]; [reflexivity|]. rewrite IH. apply andb_assoc. Qed.

Lemma DecodeRune_high (c0 : ascii) (s1 : string) (r : N) (n : nat) :
  0x80 <= code c0 -> DecodeRune (String c0 s1) = Some (r, n) ->
  all_bytes (fun c => 0x80 <=? code c) (str_take n (String c0 s1)) = true.
Proof.
  intros Hc H.
  destruct s1 as [|c1 [|c2 [|c3 s4]]];
    unfold DecodeRune in H; cbv zeta in H; split_ifs H;
    try discriminate; injection H as <- <-;
    unfold is_cont in *; unfold in_range in *; cbv beta iota in *; bools_to_N; try lia;
    cbn [str_take all_bytes];
    repeat (apply andb_true_intro; split); try reflexivity; apply N.leb_le;
    repeat match goal with H : context [if ?b then _ else _] |- _ => destruct b end; lia.
Qed.

Lemma high_bytes_safe (s : string) :
  all_bytes (fun c => 0x80 <=? code c) s = true -> all_bytes safe_byte s = true.
Proof.
  induction s as [|c s IH]; cbn [all_bytes]; [reflexivity|].
  intros H. apply andb_prop in H as [H1 H2]. rewrite IH by exact H2.
  apply N.leb_le in H1. unfold safe_byte.
  replace (0x20 <=? code c) with true by (symmetry; apply N.leb_le; lia).
  replace (code c =? 60) with false by (symmetry; apply N.eqb_neq; lia).
  replace (code c =? 62) with false by (symmetry; apply N.eqb_neq; lia).
  replace (code c =? 38) with false by (symmetry; apply N.eqb_neq; lia).
  reflexivity.
Qed.

Lemma escape_ascii_safe (c : ascii) : all_bytes safe_byte (escape_ascii c) = true.
Proof. destruct c as [[] [] [] [] [] [] [] []]; vm_compute; reflexivity. Qed.

(** A property of the sixteen hex digits, checked on each of them. *)
Lemma hexdigit_all (p : ascii -> bool) :
  forallb (fun k => p (hexdigit (N.of_nat k))) (seq 0 16) = true ->
  forall n, n < 16 -> p (hexdigit n) = true.
Proof.
  intros H n Hn. rewrite forallb_forall in H. rewrite <- (N2Nat.id n).
  apply H, in_seq. lia.
Qed.

Lemma hexdigit_safe (n : N) : n < 16 -> safe_byte (hexdigit n) = true.
Proof. apply hexdigit_all. reflexivity. Qed.

Lemma string_body_safe (g : nat) : forall s, all_bytes safe_byte (string_body g s) = true.
Proof.
  induction g as [|g IH]; intros s; [reflexivity|].
  destruct s as [|c s']; [reflexivity|]. cbn [string_body].
  destruct (code c <? 0x80) eqn:Ea.
  - rewrite all_bytes_app, escape_ascii_safe, IH. reflexivity.
  - destruct (DecodeRune (String c s')) as [[r n]|] eqn:Ed.
    + rewrite all_bytes_app, IH, andb_true_r.
      destruct ((r =? 0x2028) || (r =? 0x2029)).
      * cbn [all_bytes str1]. rewrite hexdigit_safe by (apply N.mod_lt; lia). reflexivity.
      * apply high_bytes_safe, (DecodeRune_high c s' r n); [apply N.ltb_ge, Ea|exact Ed].
    + rewrite all_bytes_app, IH. reflexivity.
Qed.

Lemma appendString_safe (s : string) : all_bytes safe_byte (appendString s) = true.
Proof. unfold appendString. rewrite !all_bytes_app, string_body_safe. reflexivity. Qed.

Lemma join_comma_safe (l : list string) :
  Forall (fun x => all_bytes safe_byte x = true) l -> all_bytes safe_byte (join_comma l) = true.
Proof.
  induction 1 as [|x l Hx Hl IH]; [reflexivity|].
  destruct l as [|y l]; cbn [join_comma]; [exact Hx|].
  rewrite all_bytes_app, Hx. cbn [all_bytes append]. exact IH.
Qed.

Lemma Marshal_safe : forall v, no_num v = true -> all_bytes safe_byte (Marshal v) = true.
Proof.
  refine (gval_ind2 (fun v => no_num v = true -> all_bytes safe_byte (Marshal v) = true) _ _ _ _ _ _).
  - reflexivity.
  - intros []; reflexivity.
  - discriminate.
  - intros s _. apply appendString_safe.
  - intros l IH Hn. cbn [no_num] in Hn. cbn [Marshal]. rewrite !all_bytes_app.
    rewrite join_comma_safe; [reflexivity|].
    apply Forall_map. rewrite Forall_forall in IH |- *. rewrite forallb_forall in Hn.
    intros x Hx. apply IH; [exact Hx|apply Hn, Hx].
  - intros m IH Hn. cbn [no_num] in Hn. rewrite Marshal_GObj, !all_bytes_app.
    rewrite join_comma_safe; [reflexivity|].
    apply Forall_map. eapply Forall_perm; [symmetry; apply sort_by_key_perm|].
    rewrite Forall_forall in IH |- *. rewrite forallb_forall in Hn.
    intros [k v] Hin. unfold enc_entry. cbn [fst snd].
    rewrite !all_bytes_app, appendString_safe. cbn [all_bytes].
    apply (IH _ Hin), (Hn _ Hin).
Qed.

(** X11: Every byte of the posted payload is at least 0x20 and none is <, > or &: control characters and these three are written as escapes. *)
Theorem payload_bytes_safe (a : App) : all_bytes safe_byte (payload_of a) = true.
Proof.
  apply Marshal_safe. cbn [payload_value no_num forallb snd]. rewrite !andb_true_r.
  induction (Headers (config a)) as [|kv l IH]; [reflexivity|]. exact IH.
Qed.

Lemma utf8_fuel_enough : forall f1 f2 s,
  (String.length s < f1)%nat -> (String.length s < f2)%nat ->
  utf8_valid_fuel f1 s = utf8_valid_fuel f2 s.
Proof.
  induction f1 as [|f1 IH]; intros [|f2] s H1 H2; try lia.
  cbn [utf8_valid_fuel]. destruct s as [|c s]; [reflexivity|].
  destruct (DecodeRune (String c s)) as [[r n]|] eqn:Ed; [|reflexivity].
  apply DecodeRune_take in Ed as [Hn _].
  apply IH; rewrite slength_drop; lia.
Qed.

Lemma utf8_valid_fuel_iff (f : nat) (s : string) :
  (String.length s < f)%nat -> utf8_valid_fuel f s = utf8_valid s.
Proof. intros H. apply utf8_fuel_enough; lia. Qed.

Lemma utf8_valid_fuel_cons (f : nat) (c : ascii) (s : string) :
  utf8_valid_fuel (S f) (String c s) =
  match DecodeRune (String c s) with
  | Some (_, n) => utf8_valid_fuel f (str_drop n (String c s))
  | None => false
  end.
Proof. reflexivity. Qed.

Lemma utf8_valid_app (x y : string) :
  utf8_valid x = true -> utf8_valid y = true -> utf8_valid (x ++ y) = true.
Proof.
  intros Hx Hy. unfold utf8_valid in Hx.
  remember (S (String.length x)) as g eqn:Eg.
  assert (Hl : (String.length x < g)%nat) by lia. clear Eg.
  revert x Hl Hx. induction g as [|g IH]; intros x Hl Hx; [lia|].
  destruct x as [|c x']; [exact Hy|].
  cbn [utf8_valid_fuel] in Hx.
  destruct (DecodeRune (String c x')) as [[r n]|] eqn:Ed; [|discriminate].
  destruct (DecodeRune_take _ _ _ Ed) as [Hn Ht].
  assert (Hsplit : String c x' ++ y =
                   str_take n (String c x') ++ (str_drop n (String c x') ++ y)).
  { rewrite <- sappend_assoc, str_take_drop. reflexivity. }
  assert (Hd : DecodeRune (String c x' ++ y) = Some (r, n)) by (rewrite Hsplit; apply Ht).
  assert (Hdrop : str_drop n (String c x' ++ y) = str_drop n (String c x') ++ y).
  { rewrite Hsplit. apply str_drop_app_len. apply slength_take. lia. }
  unfold utf8_valid.
  change (String c x' ++ y) with (String c (x' ++ y)) at 2.
  rewrite utf8_valid_fuel_cons.
  change (String c (x' ++ y)) with (String c x' ++ y).
  rewrite Hd, Hdrop.
  pose proof (slength_drop n (String c x')) as Hld.
  rewrite utf8_valid_fuel_iff.
  - apply IH; [rewrite Hld; cbn [String.length] in *; lia|exact Hx].
  - rewrite !slength_app, Hld. lia.
Qed.

Lemma utf8_valid_str1 (c : ascii) : (code c <? 0x80) = true -> utf8_valid (str1 c) = true.
Proof.
  intros H. unfold utf8_valid, str1. cbn [String.length]. rewrite utf8_valid_fuel_cons.
  unfold DecodeRune. cbv zeta. rewrite H. reflexivity.
Qed.

Lemma utf8_valid_ascii (s : string) :
  all_bytes (fun c => code c <? 0x80) s = true -> utf8_valid s = true.
Proof.
  induction s as [|c s IH]; [reflexivity|]. cbn [all_bytes].
  intros H. apply andb_prop in H as [H1 H2].
  change (String c s) with (str1 c ++ s).
  apply utf8_valid_app; [apply utf8_valid_str1, H1|apply IH, H2].
Qed.

Lemma utf8_valid_rune (s : string) (r : N) (n : nat) :
  DecodeRune s = Some (r, n) -> utf8_valid (str_take n s) = true.
Proof.
  intros Ed. destruct (DecodeRune_take _ _ _ Ed) as [Hn Ht].
  specialize (Ht EmptyString). rewrite sappend_nil_r in Ht.
  pose proof (slength_take n s ltac:(lia)) as Hl.
  pose proof (slength_drop n (str_take n s)) as Hd. rewrite Hl, Nat.sub_diag in Hd.
  destruct (str_take n s) as [|c t] eqn:Et; [cbn in Hl; lia|].
  unfold utf8_valid. rewrite utf8_valid_fuel_cons, Ht.
  destruct (str_drop n (String c t)); [reflexivity|discriminate].
Qed.

Lemma escape_ascii_valid (c : ascii) :
  (code c <? 0x80) = true -> utf8_valid (escape_ascii c) = true.
Proof. destruct c as [[] [] [] [] [] [] [] []]; vm_compute; intros; first [reflexivity|discriminate]. Qed.

Lemma hexdigit_ascii (n : N) : n < 16 -> (code (hexdigit n) <? 0x80) = true.
Proof. apply (hexdigit_all (fun c => code c <? 0x80)). reflexivity. Qed.

Lemma string_body_valid (g : nat) : forall s, utf8_valid (string_body g s) = true.
Proof.
  induction g as [|g IH]; intros s; [reflexivity|].
  destruct s as [|c s']; [reflexivity|]. cbn [string_body].
  destruct (code c <? 0x80) eqn:Ea.
  - apply utf8_valid_app; [apply escape_ascii_valid, Ea|apply IH].
  - destruct (DecodeRune (String c s')) as [[r n]|] eqn:Ed.
    + apply utf8_valid_app; [|apply IH].
      destruct ((r =? 0x2028) || (r =? 0x2029)).
      * apply utf8_valid_ascii. cbn [all_bytes str1].
        rewrite hexdigit_ascii by (apply N.mod_lt; lia). reflexivity.
      * apply (utf8_valid_rune _ r n Ed).
    + apply utf8_valid_app; [reflexivity|apply IH].
Qed.

Lemma appendString_valid (s : string) : utf8_valid (appendString s) = true.
Proof.
  unfold appendString. apply utf8_valid_app; [reflexivity|].
  apply utf8_valid_app; [apply string_body_valid|reflexivity].
Qed.

Lemma join_comma_valid (l : list string) :
  Forall (fun x => utf8_valid x = true) l -> utf8_valid (join_comma l) = true.
Proof.
  induction 1 as [|x l Hx Hl IH]; [reflexivity|].
  destruct l as [|y l]; cbn [join_comma]; [exact Hx|].
  apply utf8_valid_app; [exact Hx|]. apply (utf8_valid_app ","); [reflexivity|exact IH].
Qed.

Lemma Marshal_valid : forall v, no_num v = true -> utf8_valid (Marshal v) = true.
Proof.
  refine (gval_ind2 (fun v => no_num v = true -> utf8_valid (Marshal v) = true) _ _ _ _ _ _).
  - reflexivity.
  - intros []; reflexivity.
  - discriminate.
  - intros s _. apply appendString_valid.
  - intros l IH Hn. cbn [no_num] in Hn. cbn [Marshal].
    apply (utf8_valid_app "["); [reflexivity|]. apply utf8_valid_app; [|reflexivity].
    apply join_comma_valid.
    apply Forall_map. rewrite Forall_forall in IH |- *. rewrite forallb_forall in Hn.
    intros x Hx. apply IH; [exact Hx|apply Hn, Hx].
  - intros m IH Hn. cbn [no_num] in Hn. rewrite Marshal_GObj.
    apply (utf8_valid_app "{"); [reflexivity|]. apply utf8_valid_app; [|reflexivity].
    apply join_comma_valid.
    apply Forall_map. eapply Forall_perm; [symmetry; apply sort_by_key_perm|].
    rewrite Forall_forall in IH |- *. rewrite forallb_forall in Hn.
    intros [k v] Hin. unfold enc_entry. cbn [fst snd].
    apply utf8_valid_app; [apply appendString_valid|].
    apply (utf8_valid_app ":"); [reflexivity|].
    apply (IH _ Hin), (Hn _ Hin).
Qed.

(** X12: The posted payload is valid UTF-8, whatever bytes the target URL and the headers hold: invalid sequences are written as \ufffd. *)
Theorem payload_utf8_valid (a : App) : utf8_valid (payload_of a) = true.
Proof.
  apply Marshal_valid. cbn [payload_value no_num forallb snd]. rewrite !andb_true_r.
  induction (Headers (config a)) as [|kv l IH]; [reflexivity|]. exact IH.
Qed.

Lemma obj_entries_parses (L L' : list (string * gval)) :
  Forall2 entry_ok L L' ->
  parses_to ("{" ++ join_comma (map enc_entry L) ++ "}") (GObj (set_all L' [])).
Proof.
  intros Hok f rest Hf. rewrite !sappend_assoc in Hf |- *.
  destruct L as [|[k v] L]; inversion Hok as [|? [k' v'] ? L'' [Hk _] HL]; subst.
  - destruct f as [|f]; [cbn in Hf; lia|]. reflexivity.
  - cbn [fst] in Hk. subst k'.
    assert (E : "{" ++ join_comma (map enc_entry ((k, v) :: L)) ++ "}" ++ rest =
                String "{" (String quote_char (string_body (String.length k) k ++
                  str1 quote_char ++ String ":" (Marshal v ++ entries_tail L ++ "}" ++ rest)))).
    { rewrite join_comma_cons. unfold enc_entry. cbn [fst snd].
      rewrite appendString_split. rewrite !sappend_assoc. cbn [append].
      rewrite !sappend_assoc. reflexivity. }
    rewrite E in *. destruct f as [|f]; [cbn in Hf; lia|].
    rewrite parse_value_obj_open.
    apply (parse_members_entries L L'' k v v'); [exact Hok|cbn [String.length] in Hf; lia].
Qed.

Lemma map_get_map_set {V} (m : list (string * V)) (k k' : string) (v : V) :
  map_get (map_set m k v) k' = if String.eqb k' k then Some v else map_get m k'.
Proof.
  induction m as [|[k1 v1] m IH]; cbn [map_set map_get]; [reflexivity|].
  destruct (String.eqb k k1) eqn:E1; cbn [map_get].
  - apply String.eqb_eq in E1. subst k1. destruct (String.eqb k' k); reflexivity.
  - rewrite IH. destruct (String.eqb k' k1) eqn:E2; [|reflexivity].
    apply String.eqb_eq in E2. subst k1.
    destruct (String.eqb k' k) eqn:E3; [|reflexivity].
    apply String.eqb_eq in E3. subst k'. rewrite String.eqb_refl in E1. discriminate.
Qed.

Lemma map_get_app {V} (l1 l2 : list (string * V)) (k : string) :
  map_get (l1 ++ l2) k = match map_get l1 k with Some v => Some v | None => map_get l2 k end.
Proof.
  induction l1 as [|[k1 v1] l1 IH]; cbn [app map_get]; [reflexivity|].
  destruct (String.eqb k k1); [reflexivity|exact IH].
Qed.

Lemma map_get_set_all (L : list (string * gval)) : forall acc k,
  map_get (set_all L acc) k =
  match map_get (rev L) k with Some v => Some v | None => map_get acc k end.
Proof.
  induction L as [|[k1 v1] L IH]; intros acc k; [reflexivity|].
  unfold set_all in *. cbn [fold_left fst snd rev]. rewrite IH, map_get_app, map_get_map_set.
  cbn [map_get]. destruct (map_get (rev L) k); [reflexivity|].
  destruct (String.eqb k k1); reflexivity.
Qed.

(** X13: When a response body is a JSON object of marshallable members, nested at most maxNestingDepth levels deep, that repeats a key, parseResponse keeps the value of its last occurrence, as Go's decoder does when it stores each member into the map in turn. *)
Theorem parseResponse_last_key_wins (resp : Response) (L : list (string * gval)) (log : list event)
  (Hbody : Body resp = "{" ++ join_comma (map enc_entry L) ++ "}")
  (Hok : Forall (fun kv => utf8_valid (fst kv) && plain (snd kv) = true) L)
  (Hdepth : nesting_depth (GObj L) <= maxNestingDepth) :
  exists r, parseResponse resp log = ((Some r, None), (log ++ [EvClose])%list) /\
    forall k, map_get r k = option_map norm (map_get (rev L) k).
Proof.
  set (L' := map (fun kv => (fst kv, norm (snd kv))) L).
  assert (H2 : Forall2 entry_ok L L').
  { unfold L'. clear Hbody Hdepth. induction Hok as [|[k v] L Hkv _ IH]; constructor; [|exact IH].
    apply andb_prop in Hkv as [Hk Hv]. cbn [fst snd] in *.
    split; [reflexivity|split; [exact Hk|apply Marshal_plain_parses, Hv]]. }
  exists (set_all L' []). split.
  - unfold parseResponse. rewrite Hbody, (DecodeMap_parses _ _ (obj_entries_parses L L' H2)).
    reflexivity.
  - intros k. rewrite map_get_set_all. unfold L'. rewrite <- map_rev, map_get_map_values.
    destruct (map_get (rev L) k); reflexivity.
Qed.

Lemma parseResponse_last_key_wins_witness :
  exists r, parseResponse {| StatusCode := 200; Body := "{" ++ q "k" ++ ":" ++ q "a" ++ "," ++ q "k" ++ ":" ++ q "b" ++ "}" |} [] =
    ((Some r, None), [EvClose]) /\
    forall k, map_get r k =
      option_map norm (map_get (rev [("k", GStr "a"); ("k", GStr "b")]) k).
Proof.
  apply (parseResponse_last_key_wins _ [("k", GStr "a"); ("k", GStr "b")] []);
    [vm_compute; reflexivity|repeat constructor|apply N.leb_le; vm_compute; reflexivity].
Defined.
